(** * mcp-google-workspace: credential lifecycle, callback listener and
      Gmail helpers, as a shallow embedding of the TypeScript sources.

    Layout: [Base64] embeds [decodeBase64Data] (tools/gmail.ts); [Bulk]
    embeds the [Promise.all] fan-out of the bulk Gmail tools; [GAuth]
    embeds [GAuthService] (services/gauth.ts); [Server] embeds
    [OAuthServer] and [GoogleWorkspaceServer] (server.ts).  Remote services
    (Google's token and user-info endpoints) are section variables. *)

From Stdlib Require Import NArith ZArith Ascii String Strings.Byte List Bool Lia.
From stdpp Require Import gmap strings list pretty.


(* ===================================================================== *)
(** ** tools/gmail.ts: [decodeBase64Data]                                *)
(* ===================================================================== *)

Module Base64.

(** [String.prototype.replace(/c/g, d)] for a single-character pattern. *)
Fixpoint replace_all (c d : ascii) (s : string) : string :=
  match s with
  | EmptyString => EmptyString
  | String x r => String (if Ascii.eqb x c then d else x) (replace_all c d r)
  end.

(** [String.prototype.repeat]. *)
Fixpoint repeat_string (s : string) (n : nat) : string :=
  match n with
  | O => EmptyString
  | S k => String.append s (repeat_string s k)
  end.

(** Node's decoding table: both the standard and the URL-safe alphabet are
    accepted by [Buffer.from(_, 'base64')]. *)
Definition unbase64 (c : ascii) : option N :=
  let n := N_of_ascii c in
  if (65 <=? n)%N && (n <=? 90)%N then Some (n - 65)%N
  else if (97 <=? n)%N && (n <=? 122)%N then Some (n - 71)%N
  else if (48 <=? n)%N && (n <=? 57)%N then Some (n + 4)%N
  else if (n =? 43)%N || (n =? 45)%N then Some 62%N
  else if (n =? 47)%N || (n =? 95)%N then Some 63%N
  else None.

(** The legal characters of the input up to the first ['='], as 6-bit
    values: Node skips characters outside the alphabet and stops at the
    padding character. *)
Fixpoint sextets (s : string) : list N :=
  match s with
  | EmptyString => []
  | String c r =>
      if Ascii.eqb c "="%char then []
      else match unbase64 c with
           | Some v => v :: sextets r
           | None => sextets r
           end
  end.

Definition byte_of_N (n : N) : byte :=
  match Byte.of_N (n mod 256) with
  | Some b => b
  | None => x00
  end.

(** Four 6-bit values give three bytes; a trailing group of three gives two
    bytes, of two gives one, and a lone trailing value gives none. *)
Fixpoint group_bytes (q : list N) : list byte :=
  match q with
  | a :: b :: c :: d :: r =>
      byte_of_N (a * 4 + b / 16)
      :: byte_of_N ((b mod 16) * 16 + c / 4)
      :: byte_of_N ((c mod 4) * 64 + d)
      :: group_bytes r
  | [a; b; c] =>
      [byte_of_N (a * 4 + b / 16); byte_of_N ((b mod 16) * 16 + c / 4)]
  | [a; b] => [byte_of_N (a * 4 + b / 16)]
  | _ => []
  end%N.

(** [Buffer.from(s, 'base64')]. *)
Definition Buffer_from_base64 (s : string) : list byte :=
  group_bytes (sextets s).

(** The source function. *)
Definition decodeBase64Data (fileData : string) : list byte :=
  let standardBase64Data :=
    replace_all "_" "/" (replace_all "-" "+" fileData) in
  let padding :=
    repeat_string "=" ((4 - String.length standardBase64Data mod 4) mod 4) in
  Buffer_from_base64 (String.append standardBase64Data padding).

(** *** base64url (RFC 4648, section 5), the encoding the claim speaks of *)

Definition url_alphabet : string :=
  "ABCDEFGHIJKLMNOPQRSTUVWXYZabcdefghijklmnopqrstuvwxyz0123456789-_".

Definition url_char (v : N) : ascii :=
  match String.get (N.to_nat v) url_alphabet with
  | Some c => c
  | None => "A"%char
  end.

(** The 6-bit values of a byte sequence, most significant bits first, the
    last group filled with zero bits. *)
Fixpoint sextets_of_bytes (b : list byte) : list N :=
  match b with
  | [] => []
  | [x] => let x := Byte.to_N x in [x / 4; (x mod 4) * 16]
  | [x; y] =>
      let x := Byte.to_N x in
      let y := Byte.to_N y in
      [x / 4; (x mod 4) * 16 + y / 16; (y mod 16) * 4]
  | x :: y :: z :: r =>
      let x := Byte.to_N x in
      let y := Byte.to_N y in
      let z := Byte.to_N z in
      x / 4 :: (x mod 4) * 16 + y / 16 :: (y mod 16) * 4 + z / 64
        :: z mod 64 :: sextets_of_bytes r
  end%N.

Fixpoint string_of_sextets (q : list N) : string :=
  match q with
  | [] => EmptyString
  | v :: r => String (url_char v) (string_of_sextets r)
  end.

(** Unpadded base64url, as the Gmail API may return it. *)
Definition base64url (b : list byte) : string :=
  string_of_sextets (sextets_of_bytes b).

(** Padded base64url: ['='] up to a length that is a multiple of 4. *)
Definition base64url_padded (b : list byte) : string :=
  let s := base64url b in
  String.append s (repeat_string "=" ((4 - String.length s mod 4) mod 4)).

(** What the two replacements of [decodeBase64Data] do to one character. *)
Definition std_char (c : ascii) : ascii :=
  let c1 := if Ascii.eqb c "-" then "+"%char else c in
  if Ascii.eqb c1 "_" then "/"%char else c1.

(** The URL-alphabet character of a 6-bit value survives the replacements
    as a legal character that is not the padding and decodes to the value. *)
Definition char_ok (v : N) : bool :=
  let c := std_char (url_char v) in
  negb (Ascii.eqb c "=") &&
  match unbase64 c with Some w => N.eqb w v | None => false end.

End Base64.

(* ===================================================================== *)
(** ** tools/gmail.ts: the bulk tools and their [Promise.all] fan-out     *)
(* ===================================================================== *)

Module Bulk.

(** A settled promise: fulfilled with a value or rejected with a message. *)
Inductive settled (A : Type) : Type :=
  | Fulfilled (a : A)
  | Rejected (reason : string).
Arguments Fulfilled {A} a.
Arguments Rejected {A} reason.

(** [Promise.all]: fulfilled with all the values, in order, when every
    promise is fulfilled; rejected as soon as one promise is rejected.  The
    model reports the first rejection in list order (which rejection wins
    depends on timing). *)
Fixpoint Promise_all {A : Type} (ps : list (settled A)) : settled (list A) :=
  match ps with
  | [] => Fulfilled []
  | Rejected e :: _ => Rejected e
  | Fulfilled a :: r =>
      match Promise_all r with
      | Fulfilled l => Fulfilled (a :: l)
      | Rejected e => Rejected e
      end
  end.

Record MessagePart := {
  partId : string;
  filename : string;
  mimeType : string;
  body_attachmentId : option string;
}.

Record Message := {
  message_id : string;
  payload_parts : option (list MessagePart);
}.

Record Attachment := {
  att_filename : string;
  att_mimeType : string;
  att_attachmentId : string;
}.

Record EmailResult := {
  email_data : Message;
  attachments : gmap string Attachment;
}.

(** Arguments of a bulk tool call: [user_id] and the list of ids. *)
Record BulkArgs := {
  user_id : option string;
  ids : option (list string);
}.

(** JavaScript truthiness of an optional string. *)
Definition truthy (o : option string) : bool :=
  match o with
  | Some s => negb (String.eqb s "")
  | None => false
  end.

(** The [for] loop over the parts: a part with a truthy attachment id is
    recorded under its part id, later parts overwriting earlier ones. *)
Definition collect_attachments (parts : list MessagePart)
  : gmap string Attachment :=
  fold_left
    (λ acc part,
       if truthy (body_attachmentId part) then
         <[partId part :=
             {| att_filename := filename part;
                att_mimeType := mimeType part;
                att_attachmentId := default "" (body_attachmentId part) |}]> acc
       else acc)
    parts ∅.

Section Tools.
(** [gmail.users.messages.get] and [gmail.users.messages.modify], per
    user id and message id. *)
Variable messages_get : string → string → settled Message.
Variable messages_modify : string → string → settled unit.

Definition get_one (userId emailId : string) : settled EmailResult :=
  match messages_get userId emailId with
  | Rejected e => Rejected e
  | Fulfilled email =>
      let attachments :=
        match payload_parts email with
        | Some parts => collect_attachments parts
        | None => ∅
        end in
      Fulfilled {| email_data := email; attachments := attachments |}
  end.

Definition bulkGetEmails (args : BulkArgs) : settled (list EmailResult) :=
  if negb (truthy (user_id args)) then
    Rejected "Missing required argument: user_id"
  else
    match ids args with
    | None | Some [] => Rejected "Missing required argument: email_ids"
    | Some emailIds =>
        Promise_all (map (get_one (default "" (user_id args))) emailIds)
    end.

Definition archive_one (userId messageId : string) : settled string :=
  match messages_modify userId messageId with
  | Rejected e => Rejected e
  | Fulfilled _ => Fulfilled messageId
  end.

Definition join_comma (l : list string) : string := String.concat ", " l.

Definition bulkArchive (args : BulkArgs) : settled string :=
  if negb (truthy (user_id args)) then
    Rejected "Missing required argument: user_id"
  else
    match ids args with
    | None | Some [] => Rejected "Missing required argument: message_ids"
    | Some messageIds =>
        match Promise_all
                (map (archive_one (default "" (user_id args))) messageIds) with
        | Rejected e => Rejected e
        | Fulfilled archivedMessages =>
            Fulfilled ("Messages " +:+ join_comma archivedMessages
                       +:+ " archived successfully")
        end
    end.
End Tools.

End Bulk.

(* ===================================================================== *)
(** ** services/gauth.ts: [GAuthService]                                 *)
(* ===================================================================== *)

(** Conventions of the model.  The file system is the map [credFiles] from
    paths to file contents; [fs.mkdir] and [fs.writeFile] succeed, a missing
    or unparseable file makes [fs.readFile]/[JSON.parse] throw.
    [JSON.stringify] followed by [JSON.parse] gives the record back.
    [path.join] of the credentials directory and a file name is their
    concatenation with a separator (emails hold no path segments).  Every
    effect a method has on the outside is appended to [trace]. *)

Module GAuth.

Definition REDIRECT_URI : string := "http://localhost:4100/code".

Definition SCOPES : list string :=
  [ "openid";
    "https://www.googleapis.com/auth/userinfo.email";
    "https://mail.google.com/";
    "https://www.googleapis.com/auth/calendar" ].

Record AccountInfo := {
  email : string;
  accountType : string;
  extraInfo : string;
}.

Record ServerConfig := {
  gauthFile : string;
  accountsFile : string;
  credentialsDir : string;
  oauthPort : N;
}.

(** Token material, google-auth-library's [Credentials].  The granted
    scopes are kept as the list of scope strings. *)
Record Credentials := {
  access_token : option string;
  refresh_token : option string;
  expiry_date : option Z;
  scope : list string;
}.

Definition no_credentials : Credentials :=
  {| access_token := None; refresh_token := None;
     expiry_date := None; scope := [] |}.

(** The [installed] entry of the client-identity file. *)
Record ClientSecrets := {
  client_id : string;
  client_secret : string;
}.

Record OAuth2Client := {
  clientId : string;
  clientSecret : string;
  redirectUri : string;
  credentials : Credentials;
}.

Definition setCredentials (c : Credentials) (cl : OAuth2Client)
  : OAuth2Client :=
  {| clientId := clientId cl; clientSecret := clientSecret cl;
     redirectUri := redirectUri cl; credentials := c |}.

(** An authorization URL, as the query parameters [generateAuthUrl] puts on
    Google's authorization endpoint. *)
Record AuthUrl := {
  url_access_type : string;
  url_scope : list string;
  url_state : string;
  url_prompt : string;
  url_login_hint : string;
  url_response_type : string;
  url_client_id : string;
  url_redirect_uri : string;
}.

Definition generateAuthUrl (cl : OAuth2Client)
    (access_type : string) (scope : list string) (state : string)
    (prompt : string) (login_hint : string) : AuthUrl :=
  {| url_access_type := access_type; url_scope := scope;
     url_state := state; url_prompt := prompt;
     url_login_hint := login_hint; url_response_type := "code";
     url_client_id := clientId cl; url_redirect_uri := redirectUri cl |}.

(** The answer of the user-info endpoint. *)
Record Userinfo := {
  ui_id : option string;
  ui_email : string;
}.

Inductive UserinfoResponse :=
  | UserinfoData (data : option Userinfo)
  | UserinfoRejected (message : string).

(** Thrown values.  [GetCredentialsError] carries [authorizationUrl], which
    [exchangeCode] leaves empty ([None]). *)
Inductive error :=
  | Error (message : string)
  | CodeExchangeError (authorizationUrl : option AuthUrl)
  | NoRefreshTokenError (authorizationUrl : option AuthUrl)
  | NoUserIdError
  | UpstreamError (message : string).

Definition error_message (e : error) : string :=
  match e with
  | Error m => m
  | CodeExchangeError _ | NoRefreshTokenError _ => "Error getting credentials"
  | NoUserIdError => ""
  | UpstreamError m => m
  end.

Inductive result (A : Type) : Type :=
  | Ok (a : A)
  | Throw (e : error).
Arguments Ok {A} a.
Arguments Throw {A} e.

(** What a run leaves behind, in order. *)
Inductive Event :=
  | GenerateAuthUrl (u : AuthUrl)
  | Spawn (cmd : string) (args : list string) (authUrl : AuthUrl)
  | Listen (port : N)
  | Close
  | WriteFile (path : string) (c : Credentials)
  | GetToken (code : string)
  | UserinfoGet (c : Credentials)
  | Respond (status : N) (body : string)
  | Log (msg : string).

(** Content of a credential file: a token record, or text that
    [JSON.parse] rejects. *)
Inductive FileData :=
  | Json (c : Credentials)
  | Garbage.

Record World := {
  gauthData : option ClientSecrets;
  accountsData : option (list AccountInfo);
  credFiles : gmap string FileData;
  oauth2Client : option OAuth2Client;
  trace : list Event;
}.

(** There is one [OAuth2Client] object per service; every [OAuth2Client]
    value the methods pass around is a reference to it. *)
Inductive ClientRef := TheClient.

Definition M (A : Type) : Type := World → result A * World.

Definition ret {A} (a : A) : M A := λ w, (Ok a, w).
Definition throw {A} (e : error) : M A := λ w, (Throw e, w).
Definition bind {A B} (k : A → M B) (m : M A) : M B :=
  λ w, match m w with
       | (Ok a, w') => k a w'
       | (Throw e, w') => (Throw e, w')
       end.

#[global] Instance M_ret : MRet M := @ret.
#[global] Instance M_bind : MBind M := @bind.

Definition emit (e : Event) : M unit :=
  λ w, (Ok tt,
        {| gauthData := gauthData w; accountsData := accountsData w;
           credFiles := credFiles w; oauth2Client := oauth2Client w;
           trace := trace w ++ [e] |}).

Definition set_client (cl : OAuth2Client) : M unit :=
  λ w, (Ok tt,
        {| gauthData := gauthData w; accountsData := accountsData w;
           credFiles := credFiles w; oauth2Client := Some cl;
           trace := trace w |}).

Definition write_file (path : string) (c : Credentials) : M unit :=
  λ w, (Ok tt,
        {| gauthData := gauthData w; accountsData := accountsData w;
           credFiles := <[path := Json c]> (credFiles w);
           oauth2Client := oauth2Client w;
           trace := trace w ++ [WriteFile path c] |}).

Definition not_initialized : string :=
  "OAuth2 client not initialized. Call initialize() first.".

(** Dereferencing a client reference. *)
Definition deref (r : ClientRef) : M OAuth2Client :=
  λ w, match oauth2Client w with
       | Some cl => (Ok cl, w)
       | None => (Throw (Error not_initialized), w)
       end.

Definition truthy (o : option string) : bool := Bulk.truthy o.

(** The client, once built, carries the fixed redirect URI. *)
Definition redirect_fixed (w : World) : Prop :=
  ∀ cl, oauth2Client w = Some cl → redirectUri cl = REDIRECT_URI.

Definition preserves {A} (m : M A) : Prop :=
  ∀ w, redirect_fixed w → redirect_fixed (m w).2.

(** The account registry: the accounts of the accounts file, none when the
    file cannot be read. *)
Definition registry (w : World) : list AccountInfo :=
  default [] (accountsData w).

Section Service.
Variable config : ServerConfig.

(** Google's token endpoint: the tokens issued for a code, or [None] when
    the code is rejected. *)
Variable getToken : string → option Credentials.

(** An authenticated call to the user-info endpoint with the client's
    current credentials: what the client holds afterwards (the library
    refreshes an expired access token in place) and the answer. *)
Variable userinfo_get : Credentials → Credentials * UserinfoResponse.

(** [initialize]; the message of the wrapped error is not kept. *)
Definition initialize : M unit :=
  λ w, match gauthData w with
       | Some installed =>
           set_client {| clientId := client_id installed;
                         clientSecret := client_secret installed;
                         redirectUri := REDIRECT_URI;
                         credentials := no_credentials |} w
       | None =>
           (Throw (Error "Failed to initialize OAuth2 client"), w)
       end.

Definition getClient : M ClientRef :=
  λ w, match oauth2Client w with
       | Some _ => (Ok TheClient, w)
       | None => (Throw (Error not_initialized), w)
       end.

Definition getCredentialFilename (userId : string) : string :=
  credentialsDir config +:+ "/.oauth2." +:+ userId +:+ ".json".

Definition getAccountInfo : M (list AccountInfo) :=
  λ w, match accountsData w with
       | Some accounts => (Ok accounts, w)
       | None => (emit (Log "Error reading accounts file:") ;; ret []) w
       end.

Definition getStoredCredentials (userId : string) : M (option ClientRef) :=
  λ w, match oauth2Client w with
       | None => (Ok None, w)
       | Some cl =>
           match credFiles w !! getCredentialFilename userId with
           | Some (Json c) =>
               (set_client (setCredentials c cl) ;; ret (Some TheClient)) w
           | _ =>
               (emit (Log ("No stored OAuth2 credentials yet for user: "
                           +:+ userId)) ;; ret None) w
           end
       end.

Definition storeCredentials (client : ClientRef) (userId : string)
  : M unit :=
  cl ← deref client;
  write_file (getCredentialFilename userId) (credentials cl).

Definition exchangeCode (authorizationCode : string) : M ClientRef :=
  λ w, match oauth2Client w with
       | None => (Throw (Error not_initialized), w)
       | Some cl =>
           (emit (GetToken authorizationCode) ;;
            match getToken authorizationCode with
            | Some tokens =>
                set_client (setCredentials tokens cl) ;; ret TheClient
            | None =>
                emit (Log "Error exchanging code:") ;;
                throw (CodeExchangeError None)
            end) w
       end.

Definition getUserInfo (client : ClientRef) : M Userinfo :=
  cl ← deref client;
  emit (UserinfoGet (credentials cl)) ;;
  let '(after, response) := userinfo_get (credentials cl) in
  set_client (setCredentials after cl) ;;
  match response with
  | UserinfoData (Some data) =>
      if truthy (ui_id data) then ret data
      else emit (Log "Error getting user info:") ;; throw NoUserIdError
  | UserinfoData None =>
      emit (Log "Error getting user info:") ;; throw NoUserIdError
  | UserinfoRejected m =>
      emit (Log "Error getting user info:") ;; throw (UpstreamError m)
  end.

Definition getAuthorizationUrl (emailAddress : string) (state : string)
  : M AuthUrl :=
  λ w, match oauth2Client w with
       | None => (Throw (Error not_initialized), w)
       | Some cl =>
           let u := generateAuthUrl cl "offline" SCOPES state "consent"
                      emailAddress in
           (emit (GenerateAuthUrl u) ;; ret u) w
       end.

(** The [try] block of [getCredentials]: the value of the local
    [emailAddress] when the block ends, with the client to return, if
    any. *)
Definition getCredentials_try (authorizationCode : string)
  : M (string * option ClientRef) :=
  credentials_ ← exchangeCode authorizationCode;
  userInfo ← getUserInfo credentials_;
  let emailAddress := ui_email userInfo in
  cl ← deref credentials_;
  if truthy (refresh_token (credentials cl)) then
    storeCredentials credentials_ emailAddress ;;
    ret (emailAddress, Some credentials_)
  else
    storedCredentials ← getStoredCredentials emailAddress;
    match storedCredentials with
    | Some stored =>
        scl ← deref stored;
        if truthy (refresh_token (credentials scl))
        then ret (emailAddress, Some stored)
        else ret (emailAddress, None)
    | None => ret (emailAddress, None)
    end.

(** [getCredentials].  Every call of the [try] block that can throw comes
    before [emailAddress] is assigned, so the [catch] block sees its
    initial value, the empty string. *)
Definition getCredentials (authorizationCode : string) (state : string)
  : M ClientRef :=
  λ w, match getCredentials_try authorizationCode w with
       | (Ok (_, Some client), w') => (Ok client, w')
       | (Ok (emailAddress, None), w') =>
           (authorizationUrl ← getAuthorizationUrl emailAddress state;
            throw (NoRefreshTokenError (Some authorizationUrl))) w'
       | (Throw (CodeExchangeError _), w') =>
           (emit (Log "An error occurred during code exchange.") ;;
            authorizationUrl ← getAuthorizationUrl "" state;
            throw (CodeExchangeError (Some authorizationUrl))) w'
       | (Throw NoUserIdError, w') =>
           (emit (Log "No user ID could be retrieved.") ;;
            authorizationUrl ← getAuthorizationUrl "" state;
            throw (NoRefreshTokenError (Some authorizationUrl))) w'
       | (Throw _, w') =>
           (authorizationUrl ← getAuthorizationUrl "" state;
            throw (NoRefreshTokenError (Some authorizationUrl))) w'
       end.

(** Modelled from the spec: [GAuthService.credentialsHaveScopes], which
    [setupOAuth2] calls but whose body is not among the sources.  The
    spec's test of a usable record: the granted scopes are a superset of
    the required scope set. *)
Definition credentialsHaveScopes (cl : OAuth2Client) : bool :=
  forallb (λ s, bool_decide (s ∈ scope (credentials cl))) SCOPES.

End Service.

End GAuth.

(* ===================================================================== *)
(** ** server.ts: [OAuthServer] and [GoogleWorkspaceServer]              *)
(* ===================================================================== *)

Module Server.
Import GAuth.

(** An incoming request as Node's [url.parse] and [querystring.parse]
    present it: the path name and the [code] parameter (a single value).
    The handler never looks at the method. *)
Record Request := {
  method : string;
  pathname : option string;
  query_code : option string;
}.

(** The HTTP server owned by an [OAuthServer]. *)
Record OAuthServer := {
  listening : bool;
}.

Definition CONFIRMATION : string := "Auth successful! You can close the tab!".

(** The events a run appended to the trace. *)
Definition events_since (w w' : World) : list Event :=
  drop (length (trace w)) (trace w').

Definition is_auth_url (e : Event) : bool :=
  match e with GenerateAuthUrl _ => true | _ => false end.

(** A step of the interactive flow: an authorization URL is built, a
    browser is launched or a callback listener is bound. *)
Definition is_flow_event (e : Event) : bool :=
  match e with
  | GenerateAuthUrl _ | Spawn _ _ _ | Listen _ => true
  | _ => false
  end.

Definition is_write (e : Event) : bool :=
  match e with WriteFile _ _ => true | _ => false end.

Definition is_respond (e : Event) : bool :=
  match e with Respond _ _ => true | _ => false end.

(** The failure of [getCredentials] when no usable record is left:
    [NoRefreshTokenError] carrying the URL that was just built for the
    resolved email, which is the URL [getAuthorizationUrl] builds again for
    that email and state. *)
Definition restart_failure (cl : OAuth2Client) (state emailAddress : string)
    (w : World) (r : result ClientRef) (w' : World) : Prop :=
  let u := generateAuthUrl cl "offline" SCOPES state "consent" emailAddress in
  r = Throw (NoRefreshTokenError (Some u)) ∧
  last (events_since w w') = Some (GenerateAuthUrl u) ∧
  getAuthorizationUrl emailAddress state w' =
    (Ok u, (emit (GenerateAuthUrl u) w').2).

(** Arguments of a tool call. *)
Record ToolArgs := {
  user_id : option string;
}.

Inductive CallToolResult (C : Type) : Type :=
  | IsError (error : string)
  | Content (content : C).
Arguments IsError {C} error.
Arguments Content {C} content.

Inductive Service := Gmail | Calendar | Drive | Docs | Sheets | Slides.

Section Server.
Variable config : ServerConfig.
Variable getToken : string → option Credentials.
Variable userinfo_get : Credentials → Credentials * UserinfoResponse.

(** [process.platform] and [process.env.BROWSER] (empty when unset). *)
Variable platform : string.
Variable BROWSER : string.

(** [Date.now()]. *)
Variable now : Z.

(** The tool routers, [handleTool] of each service. *)
Variable ToolContent : Type.
Variable handleTool : Service → string → ToolArgs → M ToolContent.

(** [OAuthServer.handleRequest]: the outcome of the handler, the server
    afterwards and the world afterwards. *)
Definition handleRequest (self : OAuthServer) (req : Request)
  : World → result unit * OAuthServer * World :=
  λ w,
    if negb (bool_decide (pathname req = Some "/code")) then
      let '(_, w1) := emit (Respond 404 "") w in (Ok tt, self, w1)
    else if negb (truthy (query_code req)) then
      let '(_, w1) := emit (Respond 400 "") w in (Ok tt, self, w1)
    else
      let '(_, w1) := emit (Respond 200 CONFIRMATION) w in
      match getCredentials config getToken userinfo_get
              (default "" (query_code req)) "{}" w1 with
      | (Ok _, w2) =>
          let '(_, w3) := emit Close w2 in
          (Ok tt, {| listening := false |}, w3)
      | (Throw e, w2) => (Throw e, self, w2)
      end.

(** A request reaches the handler only while the server listens. *)
Definition deliver (self : OAuthServer) (req : Request) (w : World)
  : option (result unit * OAuthServer * World) :=
  if listening self then Some (handleRequest self req w) else None.

(** The launcher: the words of [BROWSER] when it is not blank, the
    platform's opener otherwise. *)
Definition browser_command : string * list string :=
  match String.words BROWSER with
  | cmd :: args => (cmd, args)
  | [] =>
      if String.eqb platform "win32" then ("cmd", ["/c"; "start"])
      else if String.eqb platform "darwin" then ("open", [])
      else ("xdg-open", [])
  end.

Definition startAuthFlow (userId : string) : M unit :=
  authUrl ← getAuthorizationUrl userId "{}";
  emit (Log ("OAuth flow starting for " +:+ userId)) ;;
  let '(cmd, args) := browser_command in
  emit (Spawn cmd args authUrl) ;;
  emit (Listen (oauthPort config)) ;;
  emit (Log ("OAuth callback server listening on http://localhost:"
             +:+ pretty (oauthPort config) +:+ "/code")).

Definition expired (tokens : Credentials) : bool :=
  match expiry_date tokens with
  | Some e => negb (e =? 0)%Z && (e <? now)%Z
  | None => false
  end.

Definition setupOAuth2 (userId : string) : M unit :=
  accounts ← getAccountInfo;
  if (length accounts =? 0)%nat then
    throw (Error "No accounts specified in .gauth.json")
  else if negb (existsb (λ a, String.eqb (email a) userId) accounts) then
    throw (Error ("Account for email: " +:+ userId
                  +:+ " not specified in .gauth.json"))
  else
    credentials_ ← getStoredCredentials config userId;
    match credentials_ with
    | None => startAuthFlow userId
    | Some client =>
        cl ← deref client;
        if negb (credentialsHaveScopes cl) then
          emit (Log "stored credentials missing required scopes, starting OAuth flow") ;;
          startAuthFlow userId
        else
          (if expired (credentials cl)
           then emit (Log "credentials expired, trying refresh")
           else ret tt) ;;
          getUserInfo userinfo_get client ;;
          storeCredentials config client userId
    end.

Definition startsWith (prefix s : string) : bool := String.prefix prefix s.

Definition route (name : string) (args : ToolArgs) : M ToolContent :=
  if startsWith "gmail_" name then handleTool Gmail name args
  else if startsWith "calendar_" name then handleTool Calendar name args
  else if startsWith "drive_" name then handleTool Drive name args
  else if startsWith "docs_" name then handleTool Docs name args
  else if startsWith "sheets_" name then handleTool Sheets name args
  else if startsWith "slides_" name then handleTool Slides name args
  else throw (Error ("Unknown tool: " +:+ name)).

(** The [CallToolRequestSchema] handler; [args] is [None] when the
    arguments are not an object. *)
Definition callTool (name : string) (args : option ToolArgs)
  : World → CallToolResult ToolContent * World :=
  λ w,
    match args with
    | None => (IsError "arguments must be dictionary", w)
    | Some args =>
        if String.eqb name "gmail_list_accounts"
           || String.eqb name "calendar_list_accounts" then
          match (if startsWith "gmail_" name then handleTool Gmail name args
                 else if startsWith "calendar_" name
                      then handleTool Calendar name args
                      else throw (Error ("Unknown tool: " +:+ name))) w with
          | (Ok r, w') => (Content r, w')
          | (Throw e, w') =>
              (IsError ("Tool execution failed: " +:+ error_message e), w')
          end
        else if negb (truthy (user_id args)) then
          (IsError "user_id argument is missing in dictionary", w)
        else
          match setupOAuth2 (default "" (user_id args)) w with
          | (Throw e, w') =>
              (IsError ("OAuth2 setup failed: " +:+ error_message e), w')
          | (Ok _, w') =>
              match route name args w' with
              | (Ok r, w'') => (Content r, w'')
              | (Throw e, w'') =>
                  (IsError ("Tool execution failed: " +:+ error_message e),
                   w'')
              end
          end
    end.

(** The listener's address as [startAuthFlow] logs it. *)
Definition listener_address : string :=
  "http://localhost:" +:+ pretty (oauthPort config) +:+ "/code".

(** One call of a method of the service or of the server on the shared
    world. *)
Inductive step (w : World) : World → Prop :=
  | step_initialize :
      step w (initialize w).2
  | step_getStoredCredentials userId :
      step w (getStoredCredentials config userId w).2
  | step_storeCredentials userId :
      step w (storeCredentials config TheClient userId w).2
  | step_exchangeCode code :
      step w (exchangeCode getToken code w).2
  | step_getUserInfo :
      step w (getUserInfo userinfo_get TheClient w).2
  | step_getAuthorizationUrl emailAddress state :
      step w (getAuthorizationUrl emailAddress state w).2
  | step_getCredentials code state :
      step w (getCredentials config getToken userinfo_get code state w).2
  | step_startAuthFlow userId :
      step w (startAuthFlow userId w).2
  | step_setupOAuth2 userId :
      step w (setupOAuth2 userId w).2
  | step_handleRequest self req :
      step w (handleRequest self req w).2.

(** The worlds a service can be in: it is constructed without a client,
    and then only its methods run. *)
Inductive reachable : World → Prop :=
  | reachable_new w : oauth2Client w = None → reachable w
  | reachable_step w w' : reachable w → step w w' → reachable w'.

End Server.

End Server.

(* ===================================================================== *)
(** ** Concrete configurations, used to run the model                    *)
(* ===================================================================== *)

Module Demo.
Import GAuth Server.

Definition config : ServerConfig :=
  {| gauthFile := ".gauth.json"; accountsFile := ".accounts.json";
     credentialsDir := ".credentials"; oauthPort := 4100 |}.

(** The same, started with [--oauth-port 8080]. *)
Definition config_8080 : ServerConfig :=
  {| gauthFile := ".gauth.json"; accountsFile := ".accounts.json";
     credentialsDir := ".credentials"; oauthPort := 8080 |}.

Definition full_tokens : Credentials :=
  {| access_token := Some "ya29.a"; refresh_token := Some "1//r";
     expiry_date := Some 1000%Z; scope := SCOPES |}.

(** Tokens without a refresh token. *)
Definition short_tokens : Credentials :=
  {| access_token := Some "ya29.b"; refresh_token := None;
     expiry_date := Some 1000%Z; scope := SCOPES |}.

(** A record that lacks the calendar scope. *)
Definition narrow_tokens : Credentials :=
  {| access_token := Some "ya29.c"; refresh_token := Some "1//n";
     expiry_date := Some 1000%Z;
     scope := ["openid"; "https://mail.google.com/"] |}.

(** The token endpoint accepts the codes ["ok"] and ["short"]. *)
Definition getToken (code : string) : option Credentials :=
  if String.eqb code "ok" then Some full_tokens
  else if String.eqb code "short" then Some short_tokens
  else None.

(** The user consents as [b@example.com]; nothing is refreshed. *)
Definition userinfo_get (c : Credentials) : Credentials * UserinfoResponse :=
  (c, UserinfoData (Some {| ui_id := Some "108"; ui_email := "b@example.com" |})).

Definition accounts : list AccountInfo :=
  [ {| email := "a@example.com"; accountType := "work"; extraInfo := "" |};
    {| email := "b@example.com"; accountType := "personal"; extraInfo := "" |} ].

Definition client : OAuth2Client :=
  {| clientId := "client-id"; clientSecret := "client-secret";
     redirectUri := REDIRECT_URI; credentials := no_credentials |}.

(** A service that was just constructed. *)
Definition fresh : World :=
  {| gauthData := Some {| client_id := "client-id";
                          client_secret := "client-secret" |};
     accountsData := Some accounts;
     credFiles := ∅;
     oauth2Client := None;
     trace := [] |}.

(** The service after [initialize]. *)
Definition ready : World :=
  {| gauthData := gauthData fresh; accountsData := accountsData fresh;
     credFiles := ∅; oauth2Client := Some client; trace := [] |}.

(** The initialized service with a token record on file for
    [a@example.com]. *)
Definition with_record (c : Credentials) : World :=
  {| gauthData := gauthData fresh; accountsData := accountsData fresh;
     credFiles := {[ getCredentialFilename config "a@example.com" := Json c ]};
     oauth2Client := Some client; trace := [] |}.

Definition redirect (code : string) : Request :=
  {| method := "GET"; pathname := Some "/code"; query_code := Some code |}.

(** Gmail answers every message id but ["m2"]. *)
Definition messages_get (userId id : string) : Bulk.settled Bulk.Message :=
  if String.eqb id "m2" then Bulk.Rejected "Requested entity was not found."
  else Bulk.Fulfilled {| Bulk.message_id := id; Bulk.payload_parts := None |}.

Definition messages_modify (userId id : string) : Bulk.settled unit :=
  if String.eqb id "m2" then Bulk.Rejected "Requested entity was not found."
  else Bulk.Fulfilled tt.

End Demo.

(* ===================================================================== *)
(** ** Stored records along a run                                        *)
(* ===================================================================== *)

Module Records.
Import GAuth.

(** The credential file at [path] holds a token record. *)
Definition has_record (path : string) (w : World) : Prop :=
  ∃ c, credFiles w !! path = Some (Json c).

Definition keeps_records {A} (m : M A) : Prop :=
  ∀ path w, has_record path w → has_record path (m w).2.

End Records.

(* ===================================================================== *)
(** ** tools/gmail.ts: the single-message tools and the drafts           *)
(* ===================================================================== *)

Module Gmail.
Import Bulk.

(** The entry the attachment loop records for a part. *)
Definition attachment_of (part : MessagePart) : Attachment :=
  {| att_filename := filename part; att_mimeType := mimeType part;
     att_attachmentId := default "" (body_attachmentId part) |}.

(** The arguments the Gmail tools read from [args]. *)
Record Args := {
  user_id : option string;
  email_id : option string;
  message_id : option string;
  to : option string;
  subject : option string;
  body : option string;
  cc : option (list string);
  original_message_id : option string;
  reply_body : option string;
  send : option bool;
}.

Definition no_args : Args :=
  {| user_id := None; email_id := None; message_id := None; to := None;
     subject := None; body := None; cc := None;
     original_message_id := None; reply_body := None; send := None |}.

Definition CRLF : string :=
  String (ascii_of_nat 13) (String (ascii_of_nat 10) EmptyString).

(** The double quote character. *)
Definition DQUOTE : ascii := ascii_of_nat 34.

(** [Buffer.from(text).toString('base64url')]: the text is a byte string
    (its UTF-8 encoding), the result the unpadded base64url of its bytes. *)
Definition to_base64url (text : string) : string :=
  Base64.base64url (list_byte_of_string text).

Record Header := {
  name : option string;
  value : option string;
}.

(** What [reply] reads of the original message: [data.threadId] and
    [data.payload?.headers]. *)
Record Original := {
  threadId : option string;
  headers : option (list Header);
}.

(** The calls made on the Gmail API, in order. *)
Inductive Call :=
  | MessagesGet (userId id : string)
  | MessagesSend (userId raw : string) (thread : option string)
  | DraftsCreate (userId raw : string) (thread : option string).

Definition is_send (c : Call) : bool :=
  match c with MessagesSend _ _ _ => true | _ => false end.

Definition is_draft (c : Call) : bool :=
  match c with DraftsCreate _ _ _ => true | _ => false end.

Inductive Outcome (S D : Type) : Type :=
  | Sent (data : S)
  | Drafted (data : D).
Arguments Sent {S D} data.
Arguments Drafted {S D} data.

Section Tools.
Variable messages_get : string → string → settled Message.
Variable messages_modify : string → string → settled unit.

Definition getEmailById (args : Args) : settled EmailResult :=
  if negb (truthy (user_id args)) then
    Rejected "Missing required argument: user_id"
  else if negb (truthy (email_id args)) then
    Rejected "Missing required argument: email_id"
  else
    match messages_get (default "" (user_id args))
            (default "" (email_id args)) with
    | Rejected e => Rejected e
    | Fulfilled email =>
        let attachments :=
          match payload_parts email with
          | Some parts => collect_attachments parts
          | None => ∅
          end in
        Fulfilled {| email_data := email; attachments := attachments |}
    end.

Definition archive (args : Args) : settled string :=
  if negb (truthy (user_id args)) then
    Rejected "Missing required argument: user_id"
  else if negb (truthy (message_id args)) then
    Rejected "Missing required argument: message_id"
  else
    match messages_modify (default "" (user_id args))
            (default "" (message_id args)) with
    | Rejected e => Rejected e
    | Fulfilled _ =>
        Fulfilled ("Message " +:+ default "" (message_id args)
                   +:+ " archived successfully")
    end.
End Tools.

Section Drafts.
Variable SentData DraftData : Type.
Variable original_get : string → string → settled Original.
Variable messages_send : string → string → option string → settled SentData.
Variable drafts_create : string → string → option string → settled DraftData.

(** [String.prototype.toLowerCase]. *)
Variable toLowerCase : string → string.

(** The RFC 822 text of a new draft. *)
Definition draft_text (to subject : string) (cc : list string) (body : string)
  : string :=
  "To: " +:+ to +:+ CRLF +:+
  "Subject: " +:+ subject +:+ CRLF +:+
  "Cc: " +:+ String.concat ", " cc +:+ CRLF +:+
  "Content-Type: text/plain; charset=" +:+ String DQUOTE "UTF-8"
    +:+ String DQUOTE CRLF +:+
  CRLF +:+
  body.

Definition createDraft (args : Args) : list Call * settled DraftData :=
  let cc := default [] (cc args) in
  if negb (truthy (user_id args)) then
    ([], Rejected "Missing required argument: user_id")
  else if negb (truthy (to args)) then
    ([], Rejected "Missing required argument: to")
  else if negb (truthy (subject args)) then
    ([], Rejected "Missing required argument: subject")
  else if negb (truthy (body args)) then
    ([], Rejected "Missing required argument: body")
  else
    let userId := default "" (user_id args) in
    let raw :=
      to_base64url (draft_text (default "" (to args))
                      (default "" (subject args)) cc
                      (default "" (body args))) in
    ([DraftsCreate userId raw None], drafts_create userId raw None).

(** The [reduce] over the headers of the original message: a header with a
    name and a value is recorded under its lower-cased name, later ones
    overwriting earlier ones. *)
Definition header_map (hs : list Header) : gmap string string :=
  fold_left
    (λ acc header,
       if truthy (name header) && truthy (value header) then
         <[toLowerCase (default "" (name header)) :=
             default "" (value header)]> acc
       else acc)
    hs ∅.

(** The RFC 822 text of a reply. *)
Definition reply_text (originalMessageId : string)
    (hm : gmap string string) (cc : list string) (replyBody : string)
  : string :=
  "In-Reply-To: " +:+ originalMessageId +:+ CRLF +:+
  "References: " +:+ originalMessageId +:+ CRLF +:+
  "Subject: Re: " +:+ default "" (hm !! "subject") +:+ CRLF +:+
  "To: " +:+ default "" (hm !! "from") +:+ CRLF +:+
  "Cc: " +:+ String.concat ", " cc +:+ CRLF +:+
  "Content-Type: text/plain; charset=" +:+ String DQUOTE "UTF-8"
    +:+ String DQUOTE CRLF +:+
  CRLF +:+
  replyBody.

Definition reply (args : Args)
  : list Call * settled (Outcome SentData DraftData) :=
  let send := default false (send args) in
  let cc := default [] (cc args) in
  if negb (truthy (user_id args)) then
    ([], Rejected "Missing required argument: user_id")
  else if negb (truthy (original_message_id args)) then
    ([], Rejected "Missing required argument: original_message_id")
  else if negb (truthy (reply_body args)) then
    ([], Rejected "Missing required argument: reply_body")
  else
    let userId := default "" (user_id args) in
    let originalMessageId := default "" (original_message_id args) in
    match original_get userId originalMessageId with
    | Rejected e => ([MessagesGet userId originalMessageId], Rejected e)
    | Fulfilled originalMessage =>
        match headers originalMessage with
        | None =>
            ([MessagesGet userId originalMessageId],
             Rejected "Could not extract headers from original message")
        | Some hs =>
            let raw :=
              to_base64url
                (reply_text originalMessageId (header_map hs) cc
                   (default "" (reply_body args))) in
            let thread := threadId originalMessage in
            if send then
              ([MessagesGet userId originalMessageId;
                MessagesSend userId raw thread],
               match messages_send userId raw thread with
               | Fulfilled sent => Fulfilled (Sent sent)
               | Rejected e => Rejected e
               end)
            else
              ([MessagesGet userId originalMessageId;
                DraftsCreate userId raw thread],
               match drafts_create userId raw thread with
               | Fulfilled draft => Fulfilled (Drafted draft)
               | Rejected e => Rejected e
               end)
        end
    end.
End Drafts.

End Gmail.

(* ===================================================================== *)
(** ** tools/drive.ts: [listFiles] and [downloadFile]                    *)
(* ===================================================================== *)

Module Drive.
Import Bulk.

(** [a || d] on an optional integer: the default replaces a missing value
    and zero. *)
Definition or_default (a : option Z) (d : Z) : Z :=
  match a with
  | Some n => if (n =? 0)%Z then d else n
  | None => d
  end.

(** [a || b] on optional strings: the first truthy one. *)
Definition or_string (a : option string) (b : string) : string :=
  if truthy a then default "" a else b.

(** The page size [listFiles] asks for. *)
Definition pageSize (page_size : option Z) : Z :=
  Z.min (Z.max 1 (or_default page_size 50)) 100.

Definition std_alphabet : string :=
  "ABCDEFGHIJKLMNOPQRSTUVWXYZabcdefghijklmnopqrstuvwxyz0123456789+/".

Definition std_char (v : N) : ascii :=
  match String.get (N.to_nat v) std_alphabet with
  | Some c => c
  | None => "A"%char
  end.

Fixpoint string_of_sextets_std (q : list N) : string :=
  match q with
  | [] => EmptyString
  | v :: r => String (std_char v) (string_of_sextets_std r)
  end.

(** [Buffer.prototype.toString('base64')]: the standard alphabet, padded
    with ['='] to a multiple of 4. *)
Definition to_base64 (b : list byte) : string :=
  let s := string_of_sextets_std (Base64.sextets_of_bytes b) in
  String.append s
    (Base64.repeat_string "=" ((4 - String.length s mod 4) mod 4)).

(** A standard-alphabet character passes the replacements of
    [decodeBase64Data] unchanged and decodes to its value. *)
Definition std_char_ok (v : N) : bool :=
  let c := Base64.std_char (std_char v) in
  negb (Ascii.eqb c "=") &&
  match Base64.unbase64 c with Some w => N.eqb w v | None => false end.

Record DownloadArgs := {
  user_id : option string;
  file_id : option string;
  mime_type : option string;
}.

Record Resource := {
  uri : string;
  mimeType : string;
  blob : string;
}.

Section Tools.
(** [drive.files.get] with [fields: 'id, name, mimeType'] (the MIME type of
    the metadata, if any) and with [alt: 'media'] (the content). *)
Variable files_get_metadata : string → settled (option string).
Variable files_get_media : string → settled (list byte).

Definition downloadFile (args : DownloadArgs) : settled Resource :=
  if negb (truthy (user_id args)) then
    Rejected "Missing required argument: user_id"
  else if negb (truthy (file_id args)) then
    Rejected "Missing required argument: file_id"
  else
    let fileId := default "" (file_id args) in
    match files_get_metadata fileId with
    | Rejected e => Rejected e
    | Fulfilled metadata_mimeType =>
        match files_get_media fileId with
        | Rejected e => Rejected e
        | Fulfilled buffer =>
            let mimeType :=
              or_string (mime_type args)
                (or_string metadata_mimeType "application/octet-stream") in
            Fulfilled {| uri := "urn:drive:" +:+ fileId;
                         mimeType := mimeType;
                         blob := to_base64 buffer |}
        end
    end.
End Tools.

End Drive.

(* ===================================================================== *)
(** ** tools/calendar.ts: the event tools                                *)
(* ===================================================================== *)

Module Calendar.
Import Bulk.

(** The number of events [getCalendarEvents] asks for. *)
Definition maxResults (max_results : option Z) : Z :=
  Z.min (Z.max 1 (Drive.or_default max_results 250)) 2500.

Definition required : list string := ["summary"; "start_time"; "end_time"].

(** The argument object of [createCalendarEvent]: [user_id] and
    [send_notifications] are tested for truthiness, the other keys only for
    presence ([key in args]), whatever their value. *)
Record CreateArgs := {
  user_id : option string;
  present : gset string;
  calendar_id : option string;
  send_notifications : bool;
}.

(** The [events.insert] request, as far as the checks decide it. *)
Record InsertRequest := {
  calendarId : string;
  sendUpdates : string;
}.

Section Tools.
Variable EventData : Type.
Variable events_insert : InsertRequest → settled EventData.
Variable events_delete : string → string → string → settled unit.

Definition in_args (args : CreateArgs) (key : string) : bool :=
  bool_decide (key ∈ present args).

Definition createCalendarEvent (args : CreateArgs) : settled EventData :=
  if negb (truthy (user_id args)) then
    Rejected "Missing required argument: user_id"
  else if negb (forallb (in_args args) required) then
    Rejected ("Missing required arguments: " +:+
              String.concat ", "
                (List.filter (λ key, negb (in_args args key)) required))
  else
    events_insert
      {| calendarId := Drive.or_string (calendar_id args) "primary";
         sendUpdates := if send_notifications args then "all" else "none" |}.

Record DeleteArgs := {
  del_user_id : option string;
  event_id : option string;
  del_calendar_id : option string;
  del_send_notifications : bool;
}.

(** The text of the answer: [success] and [message]. *)
Definition deleteCalendarEvent (args : DeleteArgs) : settled (bool * string) :=
  if negb (truthy (del_user_id args)) then
    Rejected "Missing required argument: user_id"
  else if negb (truthy (event_id args)) then
    Rejected "Missing required argument: event_id"
  else
    match events_delete (Drive.or_string (del_calendar_id args) "primary")
            (default "" (event_id args))
            (if del_send_notifications args then "all" else "none") with
    | Fulfilled _ => Fulfilled (true, "Event successfully deleted")
    | Rejected _ => Fulfilled (false, "Failed to delete event")
    end.
End Tools.

End Calendar.

(* ===================================================================== *)
(** ** [listAccounts] of the Gmail and Calendar tools, and [start]       *)
(* ===================================================================== *)

Module Startup.
Import GAuth Server.

(** [AccountInfoImpl.toDescription]. *)
Definition toDescription (a : AccountInfo) : string :=
  "Account for email: " +:+ email a +:+ " of type: " +:+ accountType a
  +:+ ". Extra info for: " +:+ extraInfo a.

Record AccountEntry := {
  entry_email : string;
  entry_accountType : string;
  entry_extraInfo : string;
  entry_description : string;
}.

Record AccountList := {
  list_message : string;
  list_accounts : list AccountEntry;
}.

Definition entry_of (account : AccountInfo) : AccountEntry :=
  {| entry_email := email account;
     entry_accountType := accountType account;
     entry_extraInfo := extraInfo account;
     entry_description := toDescription account |}.

(** [listAccounts]; [getAccountInfo] never throws, so the [catch] block is
    not reached. *)
Definition listAccounts : M AccountList :=
  accounts ← getAccountInfo;
  let accountList := map entry_of accounts in
  if (length accountList =? 0)%nat then
    ret {| list_message :=
             "No accounts configured. Please check your .accounts.json file.";
           list_accounts := [] |}
  else
    ret {| list_message :=
             "Found " +:+ pretty (length accountList)
             +:+ " configured account(s)";
           list_accounts := accountList |}.


Definition login_hint_of (e : Event) : option string :=
  match e with
  | GenerateAuthUrl u => Some (url_login_hint u)
  | _ => None
  end.


Section Start.
Variable config : ServerConfig.
Variable platform : string.
Variable BROWSER : string.

(** The loop of [start] over the accounts. *)
Fixpoint check_accounts (accounts : list AccountInfo) : M unit :=
  match accounts with
  | [] => ret tt
  | account :: rest =>
      creds ← getStoredCredentials config (email account);
      match creds with
      | Some _ => emit (Log ("found credentials for " +:+ email account))
      | None =>
          emit (Log ("no credentials for " +:+ email account
                     +:+ ", starting OAuth flow")) ;;
          startAuthFlow config platform BROWSER (email account)
      end ;;
      check_accounts rest
  end.

(** [initializeTools]: each of the six tool sets asks for the client. *)
Definition initializeTools : M unit :=
  getClient ;; getClient ;; getClient ;; getClient ;; getClient ;;
  getClient ;; ret tt.

(** The body of [start]; the transport connects without touching the
    world. *)
Definition start_body : M unit :=
  initialize ;;
  initializeTools ;;
  accounts ← getAccountInfo;
  check_accounts accounts ;;
  emit (Log "Connecting to transport...") ;;
  emit (Log "Server ready!").

(** [start]: a failure is logged and thrown again. *)
Definition start : M unit :=
  λ w, match start_body w with
       | (Ok r, w') => (Ok r, w')
       | (Throw e, w') => (emit (Log "Server error:") ;; throw e) w'
       end.
End Start.

End Startup.

(* ===================================================================== *)
(** ** Concrete inputs for the tools                                     *)
(* ===================================================================== *)

Module DemoTools.
Import GAuth.

(** The user-info endpoint answers without an identity. *)
Definition userinfo_anonymous (c : Credentials)
  : Credentials * UserinfoResponse :=
  (c, UserinfoData None).


Definition gmail_args (userId : string) : Gmail.Args :=
  {| Gmail.user_id := Some userId; Gmail.email_id := None;
     Gmail.message_id := None; Gmail.to := None; Gmail.subject := None;
     Gmail.body := None; Gmail.cc := None;
     Gmail.original_message_id := None; Gmail.reply_body := None;
     Gmail.send := None |}.

Definition draft_args : Gmail.Args :=
  {| Gmail.user_id := Some "a@example.com"; Gmail.email_id := None;
     Gmail.message_id := None; Gmail.to := Some "c@example.com";
     Gmail.subject := Some "Hello"; Gmail.body := Some "See you at ten.";
     Gmail.cc := Some ["d@example.com"; "e@example.com"];
     Gmail.original_message_id := None; Gmail.reply_body := None;
     Gmail.send := None |}.

Definition reply_args : Gmail.Args :=
  {| Gmail.user_id := Some "a@example.com"; Gmail.email_id := None;
     Gmail.message_id := None; Gmail.to := None; Gmail.subject := None;
     Gmail.body := None; Gmail.cc := None;
     Gmail.original_message_id := Some "m1";
     Gmail.reply_body := Some "Thanks."; Gmail.send := None |}.

Definition drafts_create (userId raw : string) (thread : option string)
  : Bulk.settled string :=
  Bulk.Fulfilled "r-1".

Definition messages_send (userId raw : string) (thread : option string)
  : Bulk.settled string :=
  Bulk.Fulfilled "m-9".

Definition original_headers : list Gmail.Header :=
  [ {| Gmail.name := Some "from"; Gmail.value := Some "c@example.com" |};
    {| Gmail.name := Some "subject"; Gmail.value := Some "Hello" |} ].

Definition original_get (userId id : string) : Bulk.settled Gmail.Original :=
  Bulk.Fulfilled {| Gmail.threadId := Some "t1";
                    Gmail.headers := Some original_headers |}.

Definition download_args : Drive.DownloadArgs :=
  {| Drive.user_id := Some "a@example.com"; Drive.file_id := Some "f1";
     Drive.mime_type := None |}.

Definition files_get_metadata (fileId : string)
  : Bulk.settled (option string) :=
  Bulk.Fulfilled (Some "application/pdf").

Definition files_get_media (fileId : string) : Bulk.settled (list byte) :=
  Bulk.Fulfilled [x25; x50; x44; x46]%byte.

(** An event without [end_time]. *)
Definition create_args : Calendar.CreateArgs :=
  {| Calendar.user_id := Some "a@example.com";
     Calendar.present := {[ "user_id"; "summary"; "start_time" ]};
     Calendar.calendar_id := None;
     Calendar.send_notifications := false |}.

Definition delete_args : Calendar.DeleteArgs :=
  {| Calendar.del_user_id := Some "a@example.com";
     Calendar.event_id := Some "e1";
     Calendar.del_calendar_id := None;
     Calendar.del_send_notifications := false |}.

Definition events_insert (r : Calendar.InsertRequest) : Bulk.settled string :=
  Bulk.Fulfilled "created".

(** The Calendar API refuses every deletion. *)
Definition events_delete (calendarId eventId sendUpdates : string)
  : Bulk.settled unit :=
  Bulk.Rejected "Not Found".

End DemoTools.

(* ===================================================================== *)
(** * Properties                                                         *)
(* ===================================================================== *)

(** ** [decodeBase64Data] *)

Section Base64Facts.
Import Base64.

Local Ltac ndiv_lia := zify; Z.to_euclidean_division_equations; lia.

Lemma byte_of_to_N (b : byte) : byte_of_N (Byte.to_N b) = b.
Proof.
  unfold byte_of_N. pose proof (Byte.to_N_bounded b) as Hb.
  rewrite N.mod_small by lia. by rewrite Byte.of_to_N.
Qed.

Lemma char_ok_all (v : N) : (v < 64)%N → char_ok v = true.
Proof.
  intros Hv.
  assert (Hall : forallb char_ok (map N.of_nat (seq 0 64)) = true)
    by (vm_compute; reflexivity).
  rewrite forallb_forall in Hall. apply Hall.
  apply in_map_iff. exists (N.to_nat v). split; [lia|].
  apply in_seq. lia.
Qed.

Lemma sextets_padding n : sextets (repeat_string "=" n) = [].
Proof. destruct n; reflexivity. Qed.

Lemma sextets_standardised (q : list N) (p : string) :
  Forall (λ v, (v < 64)%N) q → sextets p = [] →
  sextets (String.append (replace_all "_" "/" (replace_all "-" "+" (string_of_sextets q))) p) = q.
Proof.
  intros Hq Hp. induction Hq as [|v q Hv _ IH]; simpl; [done|].
  pose proof (char_ok_all v Hv) as Hok. unfold char_ok, std_char in Hok.
  apply andb_true_iff in Hok as [Hne Hdec].
  apply negb_true_iff in Hne. rewrite Hne.
  destruct (unbase64 _) as [w|]; [|done].
  apply N.eqb_eq in Hdec. subst w. by rewrite IH.
Qed.

Lemma sextets_of_bytes_bound (b : list byte) :
  Forall (λ v, (v < 64)%N) (sextets_of_bytes b).
Proof.
  induction b as [b IH] using (induction_ltof1 _ (@List.length byte)).
  unfold ltof in IH.
  destruct b as [|x [|y [|z r]]]; simpl.
  - constructor.
  - pose proof (Byte.to_N_bounded x). repeat constructor; ndiv_lia.
  - pose proof (Byte.to_N_bounded x). pose proof (Byte.to_N_bounded y).
    repeat constructor; ndiv_lia.
  - pose proof (Byte.to_N_bounded x). pose proof (Byte.to_N_bounded y).
    pose proof (Byte.to_N_bounded z).
    repeat (constructor; [ndiv_lia|]). apply IH. simpl. lia.
Qed.

Local Ltac byte_back x :=
  match goal with
  | |- context [byte_of_N ?e] =>
      replace e with (Byte.to_N x) by ndiv_lia; rewrite (byte_of_to_N x)
  end.

Lemma group_sextets_of_bytes (b : list byte) :
  group_bytes (sextets_of_bytes b) = b.
Proof.
  induction b as [b IH] using (induction_ltof1 _ (@List.length byte)).
  unfold ltof in IH.
  destruct b as [|x [|y [|z r]]].
  - reflexivity.
  - pose proof (Byte.to_N_bounded x). cbn [sextets_of_bytes group_bytes].
    by byte_back x.
  - pose proof (Byte.to_N_bounded x). pose proof (Byte.to_N_bounded y).
    cbn [sextets_of_bytes group_bytes].
    byte_back x. by byte_back y.
  - pose proof (Byte.to_N_bounded x). pose proof (Byte.to_N_bounded y).
    pose proof (Byte.to_N_bounded z).
    cbn [sextets_of_bytes group_bytes]. rewrite IH by (simpl; lia).
    byte_back x. byte_back y. by byte_back z.
Qed.

Lemma decode_sextets (q : list N) (p : string) :
  Forall (λ v, (v < 64)%N) q → sextets p = [] →
  Buffer_from_base64
    (String.append (replace_all "_" "/" (replace_all "-" "+" (string_of_sextets q))) p)
  = group_bytes q.
Proof. intros Hq Hp. unfold Buffer_from_base64. by rewrite sextets_standardised. Qed.

Lemma append_cons (x : ascii) (s t : string) :
  String.append (String x s) t = String x (String.append s t).
Proof. reflexivity. Qed.

Lemma replace_all_app c d s t :
  replace_all c d (String.append s t) = String.append (replace_all c d s) (replace_all c d t).
Proof.
  induction s as [|x s IH]; [done|].
  rewrite append_cons. cbn [replace_all]. by rewrite append_cons, IH.
Qed.

Lemma replace_all_padding c d n :
  c ≠ "="%char → replace_all c d (repeat_string "=" n) = repeat_string "=" n.
Proof.
  intros Hc. induction n as [|n IH]; [done|].
  change (repeat_string "=" (S n)) with (String "="%char (repeat_string "=" n)).
  cbn [replace_all]. rewrite IH.
  destruct (Ascii.eqb_spec "="%char c) as [He|He]; [by subst c|done].
Qed.

Lemma append_assoc (s t u : string) :
  String.append (String.append s t) u = String.append s (String.append t u).
Proof.
  induction s as [|x s IH]; [done|]. by rewrite !append_cons, IH.
Qed.

Lemma sextets_padding_app n m :
  sextets (String.append (repeat_string "=" n) (repeat_string "=" m)) = [].
Proof. destruct n; simpl; [apply sextets_padding | reflexivity]. Qed.

(** C8: [decodeBase64Data] inverts base64url.  For every byte sequence [b],
    decoding the base64url encoding of [b], unpadded or padded with ['='],
    gives back exactly [b]: the function maps ['-'] to ['+'] and ['_'] to
    ['/'], pads with ['='] to a multiple of 4 and base64-decodes. *)
Theorem decodeBase64Data_roundtrip (b : list byte) :
  decodeBase64Data (base64url b) = b ∧ decodeBase64Data (base64url_padded b) = b.
Proof.
  split.
  - unfold decodeBase64Data, base64url.
    rewrite decode_sextets;
      auto using sextets_of_bytes_bound, sextets_padding, group_sextets_of_bytes.
  - unfold decodeBase64Data, base64url_padded, base64url.
    rewrite !replace_all_app, !replace_all_padding by discriminate.
    rewrite append_assoc.
    rewrite decode_sextets;
      auto using sextets_of_bytes_bound, sextets_padding_app, group_sextets_of_bytes.
Qed.

Example decode_hello :
  decodeBase64Data "aGVsbG8" = [x68; x65; x6c; x6c; x6f]%byte.
Proof. reflexivity. Qed.

Example decode_url_chars :
  decodeBase64Data "-_8" = [xfb; xff]%byte.
Proof. reflexivity. Qed.

Example encode_url_chars : base64url [xfb; xff]%byte = "-_8".
Proof. reflexivity. Qed.

End Base64Facts.

(** ** The bulk Gmail tools *)

Section BulkFacts.
Import Bulk.
Variable messages_get : string → string → settled Message.
Variable messages_modify : string → string → settled unit.

Lemma Promise_all_rejected {A} (ps : list (settled A)) (e : string) :
  Rejected e ∈ ps → ∃ e', Promise_all ps = Rejected e'.
Proof.
  induction ps as [|p ps IH]; [by intros ?%elem_of_nil|].
  intros [<-|Hin]%elem_of_cons; simpl; [eauto|].
  destruct p as [a|e0]; [|eauto].
  destruct (IH Hin) as [e' ->]. eauto.
Qed.

Lemma Promise_all_fulfilled {A} (ps : list (settled A)) (l : list A) :
  Promise_all ps = Fulfilled l ↔ ps = Fulfilled <$> l.
Proof.
  revert l. induction ps as [|p ps IH]; intros l; simpl.
  - split; [intros [= <-]; done|]. by destruct l.
  - destruct p as [a|e].
    + destruct (Promise_all ps) as [l'|e'] eqn:Hps.
      * split.
        -- intros [= <-]. simpl. f_equal. by apply IH.
        -- destruct l as [|a' l'']; [done|]. intros [= -> H].
           apply IH in H. by injection H as ->.
      * split; [done|]. destruct l as [|a' l'']; [done|]. intros [= -> H].
        apply IH in H. done.
    + split; [done|]. by destruct l.
Qed.

(** C7: a bulk operation fails as a whole.  For a non-empty list of ids,
    when the per-id call of [bulkGetEmails] is rejected for some id of
    the list, and that of [bulkArchive] for some id of the list, each
    operation is rejected: neither returns a result for the ids that did
    succeed. *)
Theorem bulk_fails_as_a_whole (userId : string) (l : list string)
    (id1 id2 e1 e2 : string) :
  userId ≠ "" →
  id1 ∈ l → messages_get userId id1 = Rejected e1 →
  id2 ∈ l → messages_modify userId id2 = Rejected e2 →
  (∃ e, bulkGetEmails messages_get {| user_id := Some userId; ids := Some l |}
        = Rejected e) ∧
  (∃ e, bulkArchive messages_modify {| user_id := Some userId; ids := Some l |}
        = Rejected e).
Proof.
  intros Hu Hin1 Hrej1 Hin2 Hrej2.
  assert (Ht : truthy (Some userId) = true).
  { simpl. apply negb_true_iff. by apply String.eqb_neq. }
  destruct l as [|x l']; [by apply elem_of_nil in Hin1|].
  split.
  - unfold bulkGetEmails. cbn [user_id ids]. rewrite Ht. cbn [negb default].
    change (Datatypes.id userId) with userId.
    apply (Promise_all_rejected _ e1).
    apply list_elem_of_fmap. exists id1. split; [|done].
    unfold get_one. by rewrite Hrej1.
  - unfold bulkArchive. cbn [user_id ids]. rewrite Ht. cbn [negb default].
    change (Datatypes.id userId) with userId.
    destruct (Promise_all_rejected
                (map (archive_one messages_modify userId) (x :: l')) e2)
      as [e' ->]; [|eauto].
    apply list_elem_of_fmap. exists id2. split; [|done].
    unfold archive_one. by rewrite Hrej2.
Qed.
End BulkFacts.

Lemma bulk_fails_as_a_whole_witness :
  (∃ e, Bulk.bulkGetEmails Demo.messages_get
          {| Bulk.user_id := Some "a@example.com";
             Bulk.ids := Some ["m1"; "m2"; "m3"] |} = Bulk.Rejected e) ∧
  (∃ e, Bulk.bulkArchive Demo.messages_modify
          {| Bulk.user_id := Some "a@example.com";
             Bulk.ids := Some ["m1"; "m2"; "m3"] |} = Bulk.Rejected e).
Proof.
  apply (bulk_fails_as_a_whole Demo.messages_get Demo.messages_modify
           "a@example.com" ["m1"; "m2"; "m3"] "m2" "m2"
           "Requested entity was not found."
           "Requested entity was not found.").
  - discriminate.
  - apply list_elem_of_further, list_elem_of_here.
  - reflexivity.
  - apply list_elem_of_further, list_elem_of_here.
  - reflexivity.
Defined.

(** ** The credential lifecycle and the callback listener *)

Import GAuth Server.

Lemma events_since_app (w w' : World) (evs : list Event) :
  trace w' = trace w ++ evs → events_since w w' = evs.
Proof. intros H. unfold events_since. rewrite H. by rewrite drop_app_length. Qed.

Ltac run :=
  unfold mbind, M_bind, bind, mret, M_ret, ret, throw, emit, set_client,
    write_file, deref in *; simpl in *.

Section ServerFacts.
Variable config : ServerConfig.
Variable getToken : string → option Credentials.
Variable userinfo_get : Credentials → Credentials * UserinfoResponse.
Variable platform : string.
Variable BROWSER : string.
Variable now : Z.
Variable ToolContent : Type.
Variable handleTool : Service → string → ToolArgs → M ToolContent.

Lemma existsb_email userId accounts :
  existsb (λ a, String.eqb (email a) userId) accounts = true ↔
  userId ∈ map email accounts.
Proof.
  rewrite existsb_exists, list_elem_of_In, in_map_iff.
  split; intros (a & H1 & H2); exists a.
  - apply String.eqb_eq in H2. auto.
  - split; [auto|]. by apply String.eqb_eq.
Qed.

Lemma startAuthFlow_run userId w cl :
  oauth2Client w = Some cl →
  ∃ evs w', startAuthFlow config platform BROWSER userId w = (Ok tt, w') ∧
    trace w' = trace w ++ evs ∧
    existsb is_auth_url evs = true ∧ existsb is_flow_event evs = true ∧
    existsb is_write evs = false ∧
    credFiles w' = credFiles w ∧ oauth2Client w' = oauth2Client w.
Proof.
  intros Hcl. unfold startAuthFlow, getAuthorizationUrl. run. rewrite Hcl.
  destruct (browser_command platform BROWSER) as [cmd args]. simpl.
  eexists _, _. split; [reflexivity|]. simpl. rewrite <- !app_assoc. simpl.
  split; [reflexivity|]. done.
Qed.

Lemma getAccountInfo_run w :
  ∃ evs w', getAccountInfo w = (Ok (registry w), w') ∧
    trace w' = trace w ++ evs ∧
    (evs = [] ∨ ∃ m, evs = [Log m]) ∧
    credFiles w' = credFiles w ∧ oauth2Client w' = oauth2Client w ∧
    accountsData w' = accountsData w.
Proof.
  unfold getAccountInfo, registry. destruct (accountsData w) as [accounts|] eqn:Ha.
  - exists [], w. rewrite app_nil_r. auto 10.
  - run. eexists [_], _. split; [reflexivity|]. simpl. eauto 10.
Qed.

Lemma setupOAuth2_unregistered userId w :
  userId ∉ map email (registry w) →
  ∃ msg w',
    setupOAuth2 config userinfo_get platform BROWSER now userId w
      = (Throw (Error msg), w') ∧
    (msg = "No accounts specified in .gauth.json" ∨
     msg = "Account for email: " +:+ userId +:+ " not specified in .gauth.json") ∧
    existsb is_flow_event (events_since w w') = false ∧
    credFiles w' = credFiles w.
Proof.
  intros Hno.
  destruct (getAccountInfo_run w) as (evs & w1 & Hrun & Htr & Hevs & Hcf & _).
  unfold setupOAuth2. unfold mbind at 1. unfold M_bind, bind. rewrite Hrun.
  rewrite <- (events_since_app _ _ _ Htr) in Hevs.
  assert (Hfl : existsb is_flow_event (events_since w w1) = false)
    by (destruct Hevs as [->|[m ->]]; reflexivity).
  destruct (length (registry w) =? 0)%nat eqn:Hlen.
  { eexists _, w1. split; [reflexivity|]. auto. }
  destruct (existsb _ (registry w)) eqn:Hex.
  { apply existsb_email in Hex. done. }
  eexists _, w1. split; [reflexivity|]. auto.
Qed.

(** C6: an account that is not in the registry is rejected before any
    flow starts.  For an email outside the registry, [setupOAuth2] fails
    with an error saying that the account is not specified, the tool call
    is answered with that error, and no authorization URL is built, no
    browser launched and no listener bound. *)
Theorem unregistered_account_rejected name userId w :
  userId ∉ map email (registry w) →
  userId ≠ "" →
  name ≠ "gmail_list_accounts" →
  name ≠ "calendar_list_accounts" →
  ∃ msg w',
    setupOAuth2 config userinfo_get platform BROWSER now userId w
      = (Throw (Error msg), w') ∧
    (msg = "No accounts specified in .gauth.json" ∨
     msg = "Account for email: " +:+ userId +:+ " not specified in .gauth.json") ∧
    callTool config userinfo_get platform BROWSER now ToolContent handleTool
      name (Some {| user_id := Some userId |}) w
      = (IsError ("OAuth2 setup failed: " +:+ msg), w') ∧
    existsb is_flow_event (events_since w w') = false.
Proof.
  intros Hno Hu Hn1 Hn2.
  destruct (setupOAuth2_unregistered userId w Hno)
    as (msg & w' & Hrun & Hmsg & Hfl & _).
  exists msg, w'. repeat split; try done.
  unfold callTool.
  apply String.eqb_neq in Hn1, Hn2, Hu. rewrite Hn1, Hn2. cbn [orb].
  cbn [user_id truthy Bulk.truthy]. rewrite Hu. cbn [negb default].
  change (Datatypes.id userId) with userId. by rewrite Hrun.
Qed.

Lemma credentialsHaveScopes_spec cl :
  credentialsHaveScopes cl = true ↔ SCOPES ⊆ scope (credentials cl).
Proof.
  unfold credentialsHaveScopes. rewrite forallb_forall. split.
  - intros H s Hs. apply list_elem_of_In, H in Hs. by apply bool_decide_eq_true in Hs.
  - intros H s Hs. apply bool_decide_eq_true, H. by apply list_elem_of_In.
Qed.

Lemma registered_nonempty userId accounts :
  userId ∈ map email accounts → (length accounts =? 0)%nat = false.
Proof. destruct accounts; [by intros ?%elem_of_nil|done]. Qed.

(** C1: a stored record starts the interactive flow exactly when it is
    under-scoped.  For a registered account with a token record on file,
    [setupOAuth2] builds an authorization URL if and only if the record's
    granted scopes do not cover [SCOPES]; when they do and a refresh
    token is present, no URL is built, no browser is launched and no
    listener is bound: the record is attached to the client and used for
    the user-info call, whatever the expiry of the access token ([now]
    is arbitrary). *)
Theorem setupOAuth2_stored_record userId w cl c :
  oauth2Client w = Some cl →
  userId ∈ map email (registry w) →
  credFiles w !! getCredentialFilename config userId = Some (Json c) →
  ∃ r w',
    setupOAuth2 config userinfo_get platform BROWSER now userId w = (r, w') ∧
    (existsb is_auth_url (events_since w w') = true ↔ ¬ (SCOPES ⊆ scope c)) ∧
    (SCOPES ⊆ scope c → truthy (refresh_token c) = true →
       existsb is_flow_event (events_since w w') = false ∧
       UserinfoGet c ∈ events_since w w').
Proof.
  intros Hcl Hreg Hfile.
  destruct (getAccountInfo_run w) as (evs & w1 & Hrun & Htr & Hevs & Hcf & Hc1 & _).
  unfold setupOAuth2. unfold mbind at 1. unfold M_bind, bind. rewrite Hrun.
  rewrite (registered_nonempty _ _ Hreg).
  apply existsb_email in Hreg. rewrite Hreg. cbn [negb].
  unfold mbind at 1. unfold M_bind, bind, getStoredCredentials.
  rewrite Hc1, Hcl, Hcf, Hfile.
  pose proof (credentialsHaveScopes_spec (setCredentials c cl)) as Hspec.
  run.
  destruct (credentialsHaveScopes (setCredentials c cl)) eqn:Hs; cbn [negb].
  - (* the scopes are covered *)
    assert (Hcov : SCOPES ⊆ scope c) by by apply Hspec.
    unfold getUserInfo, storeCredentials. run.
    destruct (expired now c); simpl;
      destruct (userinfo_get c) as [after response]; simpl;
      destruct response as [[data|]|m]; simpl;
      try destruct (truthy (ui_id data)); simpl;
      (eexists _, _; split; [reflexivity|]);
      (erewrite events_since_app
         by (simpl; rewrite Htr, <- ?app_assoc; reflexivity));
      destruct Hevs as [->|[m' ->]]; simpl;
      (split; [split; [discriminate|done]|]);
      (intros _ _; split; [reflexivity|]);
      repeat first [apply list_elem_of_here | apply list_elem_of_further].
  - (* under-scoped *)
    assert (Hcov : ¬ (SCOPES ⊆ scope c)).
    { intros H. apply Hspec in H. discriminate. }
    match goal with
    | |- context [startAuthFlow _ _ _ _ ?W] =>
        destruct (startAuthFlow_run userId W (setCredentials c cl) eq_refl)
          as (evs2 & w2 & -> & Htr2 & Hau & _)
    end.
    eexists _, _. split; [reflexivity|].
    erewrite events_since_app
      by (rewrite Htr2; simpl; rewrite Htr, <- ?app_assoc; reflexivity).
    rewrite !existsb_app, Hau, !orb_true_r. done.
Qed.

Lemma list_ascii_app (s t : string) :
  list_ascii_of_string (s +:+ t) = list_ascii_of_string s ++ list_ascii_of_string t.
Proof. induction s as [|x s IH]; [done|]. cbn. by rewrite <- IH. Qed.

Lemma append_inv_tail (s1 s2 t : string) : s1 +:+ t = s2 +:+ t → s1 = s2.
Proof.
  intros H. apply (f_equal list_ascii_of_string) in H.
  rewrite !list_ascii_app in H. apply app_inv_tail in H.
  apply (f_equal string_of_list_ascii) in H.
  by rewrite !string_of_list_ascii_of_string in H.
Qed.



(** C3: an exchange without a refresh token falls back to the stored
    record.  When the exchanged tokens carry no refresh token,
    [getCredentials] loads the record stored for the resolved email and
    returns the client holding it if that record has a refresh token;
    with no such record it fails with [NoRefreshTokenError] carrying the
    authorization URL it has just built for the resolved email.  Nothing
    is written. *)
Theorem getCredentials_without_refresh_token code state w cl tokens after data :
  oauth2Client w = Some cl →
  getToken code = Some tokens →
  userinfo_get tokens = (after, UserinfoData (Some data)) →
  truthy (ui_id data) = true →
  truthy (refresh_token after) = false →
  ∃ r w',
    getCredentials config getToken userinfo_get code state w = (r, w') ∧
    credFiles w' = credFiles w ∧
    match credFiles w !! getCredentialFilename config (ui_email data) with
    | Some (Json stored) =>
        if truthy (refresh_token stored) then
          r = Ok TheClient ∧
          credentials <$> oauth2Client w' = Some stored ∧
          existsb is_auth_url (events_since w w') = false
        else restart_failure cl state (ui_email data) w r w'
    | _ => restart_failure cl state (ui_email data) w r w'
    end.
Proof.
  intros Hcl Htok Hui Hid Hrt.
  unfold getCredentials, getCredentials_try, exchangeCode, getUserInfo,
    storeCredentials, getStoredCredentials. unfold restart_failure.
  run. rewrite Hcl. simpl. rewrite Htok. simpl. rewrite Hui. simpl.
  rewrite Hid. simpl. rewrite Hrt. simpl.
  destruct (credFiles w !! _) as [[stored|]|] eqn:Hfile; simpl;
    try destruct (truthy (refresh_token stored)) eqn:Hst; simpl;
    unfold getAuthorizationUrl; run;
    (eexists _, _; split; [reflexivity|]; split; [reflexivity|]);
    (erewrite events_since_app by (simpl; rewrite <- ?app_assoc; reflexivity));
    simpl; auto.
Qed.

(** C10: the exchange flow only persists records with a refresh token.
    Every file [getCredentials] writes holds the credentials the client
    got from the exchange of the code, and these include a refresh
    token. *)
Theorem getCredentials_stores_refresh_token code state w path c :
  WriteFile path c ∈
    events_since w (getCredentials config getToken userinfo_get code state w).2 →
  ∃ tokens,
    getToken code = Some tokens ∧
    c = (userinfo_get tokens).1 ∧
    truthy (refresh_token c) = true.
Proof.
  unfold getCredentials, getCredentials_try, exchangeCode, getUserInfo,
    storeCredentials, getStoredCredentials, getAuthorizationUrl.
  run.
  destruct (oauth2Client w) as [cl|] eqn:Hcl; simpl.
  2: { rewrite Hcl. simpl. unfold events_since. rewrite drop_all.
       by intros ?%elem_of_nil. }
  destruct (getToken code) as [tokens|] eqn:Htok; simpl.
  2: { erewrite events_since_app by (simpl; rewrite <- ?app_assoc; reflexivity).
       intros H. simpl in H. repeat (apply elem_of_cons in H as [H|H]; [discriminate|]).
       by apply elem_of_nil in H. }
  destruct (userinfo_get tokens) as [after response] eqn:Hui; simpl.
  destruct response as [[data|]|m]; simpl;
    try destruct (truthy (ui_id data)) eqn:Hid; simpl;
    try destruct (truthy (refresh_token after)) eqn:Hrt; simpl;
    try destruct (credFiles w !! _) as [[stored|]|] eqn:Hfile; simpl;
    try destruct (truthy (refresh_token stored)) eqn:Hst; simpl;
    (erewrite events_since_app by (simpl; rewrite <- ?app_assoc; reflexivity));
    intros H; simpl in H;
    repeat (apply elem_of_cons in H as [H|H];
            [first [discriminate | injection H as -> ->]|]);
    try (by apply elem_of_nil in H);
    exists tokens; rewrite Hui; auto.
Qed.

(** *** The client keeps the redirect URI it was built with *)

Lemma preserves_ret {A} (a : A) : preserves (mret a).
Proof. by intros w H. Qed.

Lemma preserves_throw {A} (e : error) : preserves (@throw A e).
Proof. by intros w H. Qed.

Lemma preserves_emit e : preserves (emit e).
Proof. by intros w H. Qed.

Lemma preserves_write_file path c : preserves (write_file path c).
Proof. by intros w H. Qed.

Lemma preserves_deref r : preserves (deref r).
Proof. intros w H. unfold deref. by destruct (oauth2Client w). Qed.

Lemma preserves_bind {A B} (m : M A) (k : A → M B) :
  preserves m → (∀ a, preserves (k a)) → preserves (m ≫= k).
Proof.
  intros Hm Hk w Hw. unfold mbind, M_bind, bind.
  specialize (Hm w Hw). destruct (m w) as [[a|e] w1]; [|done].
  by apply Hk.
Qed.

Lemma preserves_deref_bind {A} (r : ClientRef) (k : OAuth2Client → M A) :
  (∀ cl w, oauth2Client w = Some cl → redirect_fixed w →
           redirect_fixed (k cl w).2) →
  preserves (deref r ≫= k).
Proof.
  intros Hk w Hw. unfold mbind, M_bind, bind, deref.
  destruct (oauth2Client w) as [cl|] eqn:Hcl; [|done]. by apply Hk.
Qed.

Lemma redirect_fixed_set_client cl c w :
  oauth2Client w = Some cl → redirect_fixed w →
  redirect_fixed (set_client (setCredentials c cl) w).2.
Proof. intros Hcl Hw cl' [= <-]. exact (Hw _ Hcl). Qed.

Create HintDb preserves.
#[local] Hint Resolve preserves_ret preserves_throw preserves_emit
  preserves_write_file preserves_deref : preserves.

Local Ltac preserves_step :=
  first
    [ solve [eauto with preserves]
    | apply preserves_bind; [|intros ?]
    | match goal with
      | |- preserves (if ?b then _ else _) => destruct b
      | |- preserves (match ?x with _ => _ end) => destruct x
      end ].

Lemma preserves_initialize : preserves initialize.
Proof.
  intros w Hw. unfold initialize. destruct (gauthData w); [|done].
  by intros cl [= <-].
Qed.

Lemma preserves_getAccountInfo : preserves getAccountInfo.
Proof. intros w Hw. unfold getAccountInfo. by destruct (accountsData w). Qed.

Lemma preserves_getStoredCredentials userId :
  preserves (getStoredCredentials config userId).
Proof.
  intros w Hw. unfold getStoredCredentials.
  destruct (oauth2Client w) as [cl|] eqn:Hcl; [|done].
  destruct (credFiles w !! _) as [[c|]|]; try done.
  by apply (redirect_fixed_set_client cl c w).
Qed.

Lemma preserves_storeCredentials client userId :
  preserves (storeCredentials config client userId).
Proof. unfold storeCredentials. repeat preserves_step. Qed.

Lemma preserves_exchangeCode code : preserves (exchangeCode getToken code).
Proof.
  intros w Hw. unfold exchangeCode.
  destruct (oauth2Client w) as [cl|] eqn:Hcl; [|done].
  run. destruct (getToken code); [|done].
  intros cl'. simpl. intros [= <-]. exact (Hw _ Hcl).
Qed.

Lemma preserves_getUserInfo client : preserves (getUserInfo userinfo_get client).
Proof.
  unfold getUserInfo. apply preserves_deref_bind. intros cl w Hcl Hw.
  run. destruct (userinfo_get (credentials cl)) as [after response].
  assert (redirect_fixed
            (set_client (setCredentials after cl) (emit (UserinfoGet (credentials cl)) w).2).2)
    as Hset by by apply redirect_fixed_set_client.
  run. destruct response as [[data|]|m]; try done.
  by destruct (truthy (ui_id data)).
Qed.

Lemma preserves_getAuthorizationUrl emailAddress state :
  preserves (getAuthorizationUrl emailAddress state).
Proof.
  intros w Hw. unfold getAuthorizationUrl. by destruct (oauth2Client w).
Qed.

#[local] Hint Resolve preserves_initialize preserves_getAccountInfo
  preserves_getStoredCredentials preserves_storeCredentials
  preserves_exchangeCode preserves_getUserInfo
  preserves_getAuthorizationUrl : preserves.

Lemma preserves_getCredentials_try code :
  preserves (getCredentials_try config getToken userinfo_get code).
Proof.
  unfold getCredentials_try. repeat preserves_step.
Qed.

Local Ltac preserves_at :=
  match goal with
  | H : redirect_fixed ?w |- redirect_fixed (?m ?w).2 =>
      cut (preserves m); [intros Hp; by apply Hp | repeat preserves_step]
  end.

Lemma preserves_getCredentials code state :
  preserves (getCredentials config getToken userinfo_get code state).
Proof.
  intros w Hw. unfold getCredentials.
  pose proof (preserves_getCredentials_try code w Hw) as H1.
  destruct (getCredentials_try _ _ _ _ w) as [[[emailAddress [client|]]|e] w1];
    simpl in H1; [done| |].
  - preserves_at.
  - destruct e; preserves_at.
Qed.

Lemma preserves_startAuthFlow userId :
  preserves (startAuthFlow config platform BROWSER userId).
Proof.
  unfold startAuthFlow. destruct (browser_command platform BROWSER).
  repeat preserves_step.
Qed.

#[local] Hint Resolve preserves_getCredentials preserves_startAuthFlow : preserves.

Lemma preserves_setupOAuth2 userId :
  preserves (setupOAuth2 config userinfo_get platform BROWSER now userId).
Proof.
  unfold setupOAuth2. repeat preserves_step.
Qed.

Lemma preserves_handleRequest self req w :
  redirect_fixed w →
  redirect_fixed (handleRequest config getToken userinfo_get self req w).2.
Proof.
  intros Hw. unfold handleRequest.
  destruct (negb (bool_decide _)); [done|].
  destruct (negb (truthy _)); [done|]. simpl.
  match goal with
  | |- context [getCredentials _ _ _ ?c ?s ?w1] =>
      pose proof (preserves_getCredentials c s w1 Hw) as H1;
      destruct (getCredentials config getToken userinfo_get c s w1) as [[a|e] w2]
  end; done.
Qed.

(** [getCredentials] only extends the trace, and neither answers a
    request nor closes a listener. *)
Lemma getCredentials_trace code state w :
  ∃ evs,
    trace (getCredentials config getToken userinfo_get code state w).2
      = trace w ++ evs ∧
    existsb is_respond evs = false ∧ Close ∉ evs.
Proof.
  unfold getCredentials, getCredentials_try, exchangeCode, getUserInfo,
    storeCredentials, getStoredCredentials, getAuthorizationUrl.
  run.
  destruct (oauth2Client w) as [cl|] eqn:Hcl; simpl.
  2: { rewrite Hcl. simpl. exists []. rewrite app_nil_r.
       split; [done|]. split; [done|]. by intros ?%elem_of_nil. }
  destruct (getToken code) as [tokens|] eqn:Htok; simpl.
  2: { eexists. rewrite <- !app_assoc. split; [reflexivity|]. simpl.
       split; [done|]. intros H.
       repeat (apply elem_of_cons in H as [H|H]; [discriminate|]).
       by apply elem_of_nil in H. }
  destruct (userinfo_get tokens) as [after response] eqn:Hui; simpl.
  destruct response as [[data|]|m]; simpl;
    try destruct (truthy (ui_id data)) eqn:Hid; simpl;
    try destruct (truthy (refresh_token after)) eqn:Hrt; simpl;
    try destruct (credFiles w !! _) as [[stored|]|] eqn:Hfile; simpl;
    try destruct (truthy (refresh_token stored)) eqn:Hst; simpl;
    (eexists; rewrite <- ?app_assoc; split; [reflexivity|]; simpl;
     split; [done|]; intros H;
     repeat (apply elem_of_cons in H as [H|H]; [discriminate|]);
     by apply elem_of_nil in H).
Qed.

(** C5: the answers of the callback listener.  A request on [/code] with
    a (non-empty) [code] parameter is answered 200 with the confirmation
    body, and that is the only answer written; a request on [/code]
    without [code] is answered 400; a request on any other path is
    answered 404.  After a 400 or a 404 the handler returns normally and
    the server is as it was, so it keeps listening. *)
Theorem handleRequest_answers self req w :
  ∃ r self' w' evs,
    handleRequest config getToken userinfo_get self req w = (r, self', w') ∧
    trace w' = trace w ++ evs ∧
    if bool_decide (pathname req = Some "/code") then
      if truthy (query_code req) then
        head evs = Some (Respond 200 CONFIRMATION) ∧
        List.filter is_respond evs = [Respond 200 CONFIRMATION]
      else
        evs = [Respond 400 ""] ∧ r = Ok tt ∧ self' = self ∧
        listening self' = listening self
    else
      evs = [Respond 404 ""] ∧ r = Ok tt ∧ self' = self ∧
      listening self' = listening self.
Proof.
  unfold handleRequest.
  destruct (bool_decide (pathname req = Some "/code")); simpl.
  2: { eexists _, _, _, _. split; [reflexivity|]. done. }
  destruct (truthy (query_code req)); simpl.
  2: { eexists _, _, _, _. split; [reflexivity|]. done. }
  match goal with
  | |- context [getCredentials _ _ _ ?c ?s ?w1] =>
      destruct (getCredentials_trace c s w1) as (evs & Htr & Hresp & _);
      destruct (getCredentials config getToken userinfo_get c s w1) as [[a|e] w2]
  end; simpl in Htr; rewrite <- app_assoc in Htr;
    (eexists _, _, _, _; split; [reflexivity|]); simpl; rewrite Htr.
  - rewrite <- app_assoc. split; [reflexivity|]. simpl.
    rewrite List.filter_app. simpl. rewrite app_nil_r.
    split; [done|]. f_equal.
    clear -Hresp. induction evs as [|x evs IH]; [done|]. simpl in *.
    apply orb_false_iff in Hresp as [-> H]. auto.
  - split; [reflexivity|]. simpl. split; [done|]. f_equal.
    clear -Hresp. induction evs as [|x evs IH]; [done|]. simpl in *.
    apply orb_false_iff in Hresp as [-> H]. auto.
Qed.

Lemma step_redirect_fixed w w' :
  step config getToken userinfo_get platform BROWSER now w w' →
  redirect_fixed w → redirect_fixed w'.
Proof.
  intros Hstep Hw.
  destruct Hstep; try (by apply preserves_handleRequest);
    match goal with
    | |- redirect_fixed (?m w).2 =>
        cut (preserves m);
          [intros Hp; by apply Hp
          |solve [eauto using preserves_setupOAuth2 with preserves]]
    end.
Qed.

Lemma reachable_redirect_fixed w :
  reachable config getToken userinfo_get platform BROWSER now w →
  redirect_fixed w.
Proof.
  induction 1 as [w Hnew|w w' _ IH Hstep].
  - intros cl Hcl. congruence.
  - by apply (step_redirect_fixed w w').
Qed.

Lemma listener_address_redirect :
  REDIRECT_URI = listener_address config ↔ oauthPort config = 4100%N.
Proof.
  unfold listener_address. split.
  - intros H.
    change REDIRECT_URI
      with ("http://localhost:" +:+ pretty 4100%N +:+ "/code") in H.
    apply String.app_inj, append_inv_tail in H.
    symmetry. by apply (inj pretty).
  - by intros ->.
Qed.

(** C9: the redirect URI never follows the configured port.  Whatever
    [oauthPort] the configuration gives, in every world the service can
    reach, [getAuthorizationUrl] returns a URL whose redirect URI is
    [http://localhost:4100/code]; it is the address the callback listener
    is bound to only when the configured port is 4100. *)
Theorem authorization_url_redirect_fixed w cl emailAddress state :
  reachable config getToken userinfo_get platform BROWSER now w →
  oauth2Client w = Some cl →
  ∃ u w',
    getAuthorizationUrl emailAddress state w = (Ok u, w') ∧
    url_redirect_uri u = "http://localhost:4100/code" ∧
    (url_redirect_uri u = listener_address config ↔
     oauthPort config = 4100%N).
Proof.
  intros Hreach Hcl. apply reachable_redirect_fixed in Hreach.
  unfold getAuthorizationUrl. rewrite Hcl.
  eexists _, _. split; [reflexivity|]. cbn [generateAuthUrl url_redirect_uri].
  rewrite (Hreach cl Hcl). split; [reflexivity|].
  apply listener_address_redirect.
Qed.

(** *** The listener after an exchange *)

Lemma handleRequest_success_closes self req w client w2 :
  pathname req = Some "/code" →
  truthy (query_code req) = true →
  getCredentials config getToken userinfo_get (default "" (query_code req))
    "{}" (emit (Respond 200 CONFIRMATION) w).2 = (Ok client, w2) →
  handleRequest config getToken userinfo_get self req w
    = (Ok tt, {| listening := false |}, (emit Close w2).2) ∧
  ∀ req' w', deliver config getToken userinfo_get {| listening := false |}
               req' w' = None.
Proof.
  intros Hpath Hcode Hrun. split; [|done].
  unfold handleRequest. rewrite Hpath, Hcode.
  rewrite bool_decide_eq_true_2 by done. cbn [negb].
  cbn [emit snd] in Hrun |- *. by rewrite Hrun.
Qed.

Lemma handleRequest_failure_keeps_listening self req w e w2 :
  pathname req = Some "/code" →
  truthy (query_code req) = true →
  getCredentials config getToken userinfo_get (default "" (query_code req))
    "{}" (emit (Respond 200 CONFIRMATION) w).2 = (Throw e, w2) →
  handleRequest config getToken userinfo_get self req w = (Throw e, self, w2).
Proof.
  intros Hpath Hcode Hrun.
  unfold handleRequest. rewrite Hpath, Hcode.
  rewrite bool_decide_eq_true_2 by done. cbn [negb].
  cbn [emit snd] in Hrun |- *. by rewrite Hrun.
Qed.
End ServerFacts.

(** ** The model at concrete inputs *)

Lemma setupOAuth2_stored_record_witness :
  ∃ r w',
    setupOAuth2 Demo.config Demo.userinfo_get "linux" "" 2000
      "a@example.com" (Demo.with_record Demo.full_tokens) = (r, w') ∧
    (existsb is_auth_url
       (events_since (Demo.with_record Demo.full_tokens) w') = true ↔
     ¬ (SCOPES ⊆ scope Demo.full_tokens)) ∧
    (SCOPES ⊆ scope Demo.full_tokens →
     truthy (refresh_token Demo.full_tokens) = true →
     existsb is_flow_event
       (events_since (Demo.with_record Demo.full_tokens) w') = false ∧
     UserinfoGet Demo.full_tokens
       ∈ events_since (Demo.with_record Demo.full_tokens) w').
Proof.
  apply (setupOAuth2_stored_record Demo.config Demo.userinfo_get
           "linux" "" 2000 "a@example.com"
           (Demo.with_record Demo.full_tokens) Demo.client
           Demo.full_tokens).
  - reflexivity.
  - apply list_elem_of_here.
  - vm_compute. reflexivity.
Defined.


Lemma getCredentials_without_refresh_token_witness :
  ∃ r w',
    getCredentials Demo.config Demo.getToken Demo.userinfo_get
      "short" "{}" Demo.ready = (r, w') ∧
    credFiles w' = credFiles Demo.ready ∧
    match credFiles Demo.ready
          !! getCredentialFilename Demo.config "b@example.com" with
    | Some (Json stored) =>
        if truthy (refresh_token stored) then
          r = Ok TheClient ∧
          credentials <$> oauth2Client w' = Some stored ∧
          existsb is_auth_url (events_since Demo.ready w') = false
        else restart_failure Demo.client "{}" "b@example.com"
               Demo.ready r w'
    | _ => restart_failure Demo.client "{}" "b@example.com"
             Demo.ready r w'
    end.
Proof.
  apply (getCredentials_without_refresh_token Demo.config
           Demo.getToken Demo.userinfo_get "short" "{}" Demo.ready
           Demo.client Demo.short_tokens Demo.short_tokens
           {| ui_id := Some "108"; ui_email := "b@example.com" |});
    reflexivity.
Defined.

Lemma getCredentials_stores_refresh_token_witness :
  ∃ tokens,
    Demo.getToken "ok" = Some tokens ∧
    Demo.full_tokens = (Demo.userinfo_get tokens).1 ∧
    truthy (refresh_token Demo.full_tokens) = true.
Proof.
  apply (getCredentials_stores_refresh_token Demo.config Demo.getToken
           Demo.userinfo_get "ok" "{}" Demo.ready
           (getCredentialFilename Demo.config "b@example.com")
           Demo.full_tokens).
  vm_compute. do 2 apply list_elem_of_further. apply list_elem_of_here.
Defined.

Lemma unregistered_account_rejected_witness :
  ∃ msg w',
    setupOAuth2 Demo.config Demo.userinfo_get "linux" "" 2000
      "c@example.com" Demo.ready = (Throw (Error msg), w') ∧
    (msg = "No accounts specified in .gauth.json" ∨
     msg = "Account for email: " +:+ "c@example.com"
           +:+ " not specified in .gauth.json") ∧
    callTool Demo.config Demo.userinfo_get "linux" "" 2000 string
      (λ _ name _, mret name) "gmail_query_emails"
      (Some {| user_id := Some "c@example.com" |}) Demo.ready
      = (IsError ("OAuth2 setup failed: " +:+ msg), w') ∧
    existsb is_flow_event (events_since Demo.ready w') = false.
Proof.
  apply (unregistered_account_rejected Demo.config Demo.userinfo_get
           "linux" "" 2000 string (λ _ name _, mret name)
           "gmail_query_emails" "c@example.com" Demo.ready).
  - intros H. simpl in H.
    repeat (apply elem_of_cons in H as [H|H]; [discriminate|]).
    by apply elem_of_nil in H.
  - discriminate.
  - discriminate.
  - discriminate.
Defined.

Lemma authorization_url_redirect_fixed_witness :
  ∃ u w',
    getAuthorizationUrl "a@example.com" "{}" Demo.ready = (Ok u, w') ∧
    url_redirect_uri u = "http://localhost:4100/code" ∧
    (url_redirect_uri u = listener_address Demo.config_8080 ↔
     oauthPort Demo.config_8080 = 4100%N).
Proof.
  apply (authorization_url_redirect_fixed Demo.config_8080
           Demo.getToken Demo.userinfo_get "linux" "" 2000
           Demo.ready Demo.client "a@example.com" "{}").
  - apply (reachable_step _ _ _ _ _ _ Demo.fresh).
    + apply reachable_new. reflexivity.
    + exact (step_initialize _ _ _ _ _ _ Demo.fresh).
  - reflexivity.
Defined.

Example under_scoped_record_starts_flow :
  existsb is_flow_event
    (trace (setupOAuth2 Demo.config Demo.userinfo_get "linux" "" 2000
              "a@example.com" (Demo.with_record Demo.narrow_tokens)).2) = true.
Proof. vm_compute. reflexivity. Qed.

Example good_code_closes_listener :
  (handleRequest Demo.config Demo.getToken Demo.userinfo_get
     {| listening := true |} (Demo.redirect "ok") Demo.ready).1.2
  = {| listening := false |}.
Proof. vm_compute. reflexivity. Qed.


(* ===================================================================== *)
(** * Further properties                                                 *)
(* ===================================================================== *)

(** ** Further properties of the credential store *)

Section StoreFacts.
Import Records.
Variable config : ServerConfig.
Variable getToken : string → option Credentials.
Variable userinfo_get : Credentials → Credentials * UserinfoResponse.

#[local] Arguments getCredentialFilename : simpl never.

Lemma storeCredentials_run userId w cl :
  oauth2Client w = Some cl →
  ∃ w1,
    storeCredentials config TheClient userId w = (Ok tt, w1) ∧
    credFiles w1 =
      <[getCredentialFilename config userId := Json (credentials cl)]>
        (credFiles w) ∧
    oauth2Client w1 = Some cl ∧
    trace w1 = trace w ++
      [WriteFile (getCredentialFilename config userId) (credentials cl)].
Proof.
  intros Hcl. unfold storeCredentials. run. rewrite Hcl.
  eexists. split; [reflexivity|]. done.
Qed.

Lemma getStoredCredentials_hit userId w cl c :
  oauth2Client w = Some cl →
  credFiles w !! getCredentialFilename config userId = Some (Json c) →
  ∃ w1,
    getStoredCredentials config userId w = (Ok (Some TheClient), w1) ∧
    oauth2Client w1 = Some (setCredentials c cl) ∧
    credFiles w1 = credFiles w ∧ trace w1 = trace w.
Proof.
  intros Hcl Hf. unfold getStoredCredentials. rewrite Hcl, Hf. run.
  eexists. split; [reflexivity|]. done.
Qed.

Lemma getStoredCredentials_miss userId w :
  (∀ c, credFiles w !! getCredentialFilename config userId ≠ Some (Json c)) →
  ∃ w1,
    getStoredCredentials config userId w = (Ok None, w1) ∧
    oauth2Client w1 = oauth2Client w ∧ credFiles w1 = credFiles w ∧
    existsb is_flow_event (events_since w w1) = false ∧
    existsb is_write (events_since w w1) = false.
Proof.
  intros Hf. unfold getStoredCredentials.
  destruct (oauth2Client w) as [cl|] eqn:Hcl.
  2: { exists w. unfold events_since. rewrite drop_all. done. }
  destruct (credFiles w !! _) as [[c|]|] eqn:Hl; [by destruct (Hf c)|..];
    run; (eexists; split; [reflexivity|]); simpl;
    (erewrite events_since_app by reflexivity); done.
Qed.

Lemma getStoredCredentials_any userId w cl :
  oauth2Client w = Some cl →
  ∃ r w1 c,
    getStoredCredentials config userId w = (Ok r, w1) ∧
    oauth2Client w1 = Some (setCredentials c cl) ∧
    credFiles w1 = credFiles w.
Proof.
  intros Hcl.
  destruct (credFiles w !! getCredentialFilename config userId)
    as [[c|]|] eqn:Hf.
  - destruct (getStoredCredentials_hit userId w cl c Hcl Hf)
      as (w1 & -> & ? & ? & _). eauto 10.
  - destruct (getStoredCredentials_miss userId w) as (w1 & -> & Hc & ? & _).
    { intros c. by rewrite Hf. }
    exists None, w1, (credentials cl). rewrite Hc, Hcl. by destruct cl.
  - destruct (getStoredCredentials_miss userId w) as (w1 & -> & Hc & ? & _).
    { intros c. by rewrite Hf. }
    exists None, w1, (credentials cl). rewrite Hc, Hcl. by destruct cl.
Qed.

(** X1: a stored record is found again.  After [storeCredentials] wrote
    the client's credentials for a user, and whatever other account was
    loaded in between, [getStoredCredentials] for that user finds the file
    and puts the same credentials back on the client. *)
Theorem store_load_roundtrip userId other w cl :
  oauth2Client w = Some cl →
  ∃ w1 r2 w2 w3,
    storeCredentials config TheClient userId w = (Ok tt, w1) ∧
    getStoredCredentials config other w1 = (Ok r2, w2) ∧
    getStoredCredentials config userId w2 = (Ok (Some TheClient), w3) ∧
    credentials <$> oauth2Client w3 = Some (credentials cl).
Proof.
  intros Hcl.
  destruct (storeCredentials_run userId w cl Hcl) as (w1 & H1 & Hf1 & Hc1 & _).
  destruct (getStoredCredentials_any other w1 cl Hc1)
    as (r2 & w2 & c2 & H2 & Hc2 & Hf2).
  destruct (getStoredCredentials_hit userId w2 _ (credentials cl) Hc2)
    as (w3 & H3 & Hc3 & _).
  { rewrite Hf2, Hf1. apply lookup_insert_eq. }
  exists w1, r2, w2, w3. rewrite Hc3. done.
Qed.

End StoreFacts.

(** ** Further properties of the code exchange *)

Section ExchangeFacts.
Variable config : ServerConfig.
Variable getToken : string → option Credentials.
Variable userinfo_get : Credentials → Credentials * UserinfoResponse.

#[local] Arguments getCredentialFilename : simpl never.

Local Ltac exchange_cases w code :=
  unfold getCredentials, getCredentials_try, exchangeCode, getUserInfo,
    storeCredentials, getStoredCredentials, getAuthorizationUrl;
  run.

(** X3: how [getCredentials] fails.  With an initialized client, every
    failure is a [CodeExchangeError] (exactly when the token endpoint
    rejects the code) or a [NoRefreshTokenError]; it carries an
    authorization URL built during the call, and no credential file has
    been changed.  [NoUserIdError] never leaves [getCredentials]. *)
Theorem getCredentials_failures code state w cl e w' :
  oauth2Client w = Some cl →
  getCredentials config getToken userinfo_get code state w = (Throw e, w') →
  credFiles w' = credFiles w ∧
  ∃ u, GenerateAuthUrl u ∈ events_since w w' ∧
    ((e = CodeExchangeError (Some u) ∧ getToken code = None) ∨
     (e = NoRefreshTokenError (Some u) ∧ is_Some (getToken code))).
Proof.
  intros Hcl. exchange_cases w code. rewrite Hcl. simpl.
  destruct (getToken code) as [tokens|] eqn:Htok; simpl.
  2: { intros [= <- <-]. split; [done|]. eexists. split; [|left; done].
       erewrite events_since_app by (simpl; rewrite <- ?app_assoc; reflexivity).
       simpl. do 3 apply list_elem_of_further. apply list_elem_of_here. }
  destruct (userinfo_get tokens) as [after response] eqn:Hui; simpl.
  destruct response as [[data|]|m]; simpl;
    try destruct (truthy (ui_id data)) eqn:Hid; simpl;
    try destruct (truthy (refresh_token after)) eqn:Hrt; simpl;
    try destruct (credFiles w !! _) as [[stored|]|] eqn:Hfile; simpl;
    try destruct (truthy (refresh_token stored)) eqn:Hst; simpl;
    intros [= <- <-]; (split; [done|]);
    (eexists; split; [|right; split; [reflexivity|by eexists]]);
    (erewrite events_since_app by (simpl; rewrite <- ?app_assoc; reflexivity));
    simpl;
    repeat first [apply list_elem_of_here | apply list_elem_of_further].
Qed.

Lemma getCredentials_rejected_run code state w cl :
  oauth2Client w = Some cl →
  getToken code = None →
  getCredentials config getToken userinfo_get code state w
    = (Throw (CodeExchangeError
                (Some (generateAuthUrl cl "offline" SCOPES state "consent" ""))),
       {| gauthData := gauthData w; accountsData := accountsData w;
          credFiles := credFiles w; oauth2Client := Some cl;
          trace := trace w ++
            [ GetToken code; Log "Error exchanging code:";
              Log "An error occurred during code exchange.";
              GenerateAuthUrl
                (generateAuthUrl cl "offline" SCOPES state "consent" "") ] |}).
Proof.
  intros Hcl Htok. exchange_cases w code. rewrite Hcl. simpl. rewrite Htok.
  simpl. rewrite ?Hcl. simpl. by rewrite <- !app_assoc.
Qed.

(** X4: a rejected code.  When the token endpoint rejects the code,
    [getCredentials] throws [CodeExchangeError] with the URL it built last;
    the login hint of that URL is empty (no email is known yet), and the
    client and the files are as before. *)
Theorem getCredentials_rejected_code code state w cl :
  oauth2Client w = Some cl →
  getToken code = None →
  ∃ u w',
    getCredentials config getToken userinfo_get code state w
      = (Throw (CodeExchangeError (Some u)), w') ∧
    url_login_hint u = "" ∧
    last (events_since w w') = Some (GenerateAuthUrl u) ∧
    oauth2Client w' = Some cl ∧ credFiles w' = credFiles w.
Proof.
  intros Hcl Htok.
  pose proof (getCredentials_rejected_run code state w cl Hcl Htok) as Hrun.
  eexists _, _. split; [exact Hrun|].
  split; [reflexivity|]. split; [|done].
  by erewrite events_since_app by reflexivity.
Qed.

(** X5: an exchange without identity.  When the user-info call gives
    no id (no data, an empty id, or a rejection), [getCredentials] throws
    [NoRefreshTokenError] with a URL whose login hint is empty; nothing is
    written, but the client keeps the exchanged credentials. *)
Theorem getCredentials_no_identity code state w cl tokens after response :
  oauth2Client w = Some cl →
  getToken code = Some tokens →
  userinfo_get tokens = (after, response) →
  (∀ data, response = UserinfoData (Some data) → truthy (ui_id data) = false) →
  ∃ w',
    getCredentials config getToken userinfo_get code state w
      = (Throw (NoRefreshTokenError
                  (Some (generateAuthUrl cl "offline" SCOPES state "consent" ""))),
         w') ∧
    credentials <$> oauth2Client w' = Some after ∧
    credFiles w' = credFiles w.
Proof.
  intros Hcl Htok Hui Hid. exchange_cases w code. rewrite Hcl. simpl.
  rewrite Htok. simpl. rewrite Hui. simpl.
  destruct response as [[data|]|m]; simpl;
    try rewrite (Hid data eq_refl); simpl;
    (eexists; split; [reflexivity|]); done.
Qed.
End ExchangeFacts.

(** ** Further properties of the lifecycle check and the listener *)

Section LifecycleFacts.
Variable config : ServerConfig.
Variable getToken : string → option Credentials.
Variable userinfo_get : Credentials → Credentials * UserinfoResponse.
Variable platform : string.
Variable BROWSER : string.
Variable now : Z.
Variable ToolContent : Type.
Variable handleTool : Service → string → ToolArgs → M ToolContent.

#[local] Arguments getCredentialFilename : simpl never.




(** X7: a valid record is written back.  For a registered account with
    a record that covers the scopes, [setupOAuth2] makes the user-info
    call; when it gives an identity, the credentials the client then holds
    are written to the file of the requested user id (not of the email the
    endpoint returned); when it does not, [setupOAuth2] throws and the
    files are unchanged. *)
Theorem setupOAuth2_repersists userId w cl c after response :
  oauth2Client w = Some cl →
  userId ∈ map email (registry w) →
  credFiles w !! getCredentialFilename config userId = Some (Json c) →
  SCOPES ⊆ scope c →
  userinfo_get c = (after, response) →
  ∃ r w',
    setupOAuth2 config userinfo_get platform BROWSER now userId w = (r, w') ∧
    credentials <$> oauth2Client w' = Some after ∧
    match response with
    | UserinfoData (Some data) =>
        if truthy (ui_id data) then
          r = Ok tt ∧
          credFiles w' =
            <[getCredentialFilename config userId := Json after]> (credFiles w)
        else r = Throw NoUserIdError ∧ credFiles w' = credFiles w
    | UserinfoData None => r = Throw NoUserIdError ∧ credFiles w' = credFiles w
    | UserinfoRejected m =>
        r = Throw (UpstreamError m) ∧ credFiles w' = credFiles w
    end.
Proof.
  intros Hcl Hreg Hfile Hcov Hui.
  destruct (getAccountInfo_run w) as (evs & w1 & Hrun & Htr & Hevs & Hcf & Hc1 & _).
  unfold setupOAuth2. unfold mbind at 1. unfold M_bind, bind. rewrite Hrun.
  rewrite (registered_nonempty _ _ Hreg).
  apply existsb_email in Hreg. rewrite Hreg. cbn [negb].
  unfold mbind at 1. unfold M_bind, bind, getStoredCredentials.
  rewrite Hc1, Hcl, Hcf, Hfile.
  assert (Hs : credentialsHaveScopes (setCredentials c cl) = true)
    by by apply credentialsHaveScopes_spec.
  run. rewrite Hs. cbn [negb].
  unfold getUserInfo, storeCredentials. run.
  destruct (expired now c); simpl; rewrite Hui; simpl;
    destruct response as [[data|]|m]; simpl;
    try destruct (truthy (ui_id data)); simpl;
    (eexists _, _; split; [reflexivity|]); simpl; rewrite ?Hcf; done.
Qed.

Lemma getCredentials_keyed_by_resolved_email_aux code state w cl tokens after data :
  oauth2Client w = Some cl →
  getToken code = Some tokens →
  userinfo_get tokens = (after, UserinfoData (Some data)) →
  truthy (ui_id data) = true →
  truthy (refresh_token after) = true →
  ∃ w',
    getCredentials config getToken userinfo_get code state w = (Ok TheClient, w') ∧
    credFiles w' =
      <[getCredentialFilename config (ui_email data) := Json after]> (credFiles w) ∧
    ∃ evs, trace w' = trace w ++ evs.
Proof.
  intros Hcl Htok Hui Hid Hrt.
  unfold getCredentials, getCredentials_try, exchangeCode, getUserInfo,
    storeCredentials.
  run. rewrite Hcl. simpl. rewrite Htok. simpl. rewrite Hui. simpl.
  rewrite Hid. simpl. rewrite Hrt. simpl.
  eexists. split; [reflexivity|]. simpl. split; [reflexivity|].
  eexists. rewrite <- !app_assoc. reflexivity.
Qed.

(** X9: the handler on a rejected code.  For any listener and any
    initialized world, a redirect whose code the token endpoint rejects is
    answered 200 first, then the handler ends with [CodeExchangeError]; the
    server object is unchanged, no [Close] happens and no file is
    written. *)
Theorem handleRequest_rejected_code self code w cl :
  oauth2Client w = Some cl →
  code ≠ "" →
  getToken code = None →
  ∃ u w',
    handleRequest config getToken userinfo_get self
      {| method := "GET"; pathname := Some "/code"; query_code := Some code |} w
      = (Throw (CodeExchangeError (Some u)), self, w') ∧
    head (events_since w w') = Some (Respond 200 CONFIRMATION) ∧
    (Close ∉ events_since w w') ∧
    credFiles w' = credFiles w.
Proof.
  intros Hcl Hcode Htok.
  assert (Ht : truthy (Some code) = true).
  { simpl. apply negb_true_iff. by apply String.eqb_neq. }
  unfold handleRequest. cbn [pathname query_code]. rewrite Ht.
  rewrite bool_decide_eq_true_2 by done. cbn [negb default].
  change (Datatypes.id code) with code.
  pose proof (getCredentials_rejected_run config getToken userinfo_get code "{}"
                (emit (Respond 200 CONFIRMATION) w).2 cl Hcl Htok) as Hrun.
  cbn [emit snd] in Hrun |- *. rewrite Hrun.
  eexists _, _. split; [reflexivity|].
  erewrite events_since_app
    by (simpl; rewrite <- ?app_assoc; reflexivity).
  split; [done|]. split; [|done]. intros H.
  repeat (apply elem_of_cons in H as [H|H]; [discriminate|]).
  by apply elem_of_nil in H.
Qed.

(** X10: the handler on a good code.  When the exchange gives tokens
    with a refresh token and an identity, the handler returns normally, the
    record is on file under the resolved email, closing the listener is the
    last thing that happens, and the closed listener is delivered no
    further request. *)
Theorem handleRequest_good_code self code w cl tokens after data :
  oauth2Client w = Some cl →
  code ≠ "" →
  getToken code = Some tokens →
  userinfo_get tokens = (after, UserinfoData (Some data)) →
  truthy (ui_id data) = true →
  truthy (refresh_token after) = true →
  ∃ w',
    handleRequest config getToken userinfo_get self
      {| method := "GET"; pathname := Some "/code"; query_code := Some code |} w
      = (Ok tt, {| listening := false |}, w') ∧
    last (events_since w w') = Some Close ∧
    credFiles w' !! getCredentialFilename config (ui_email data)
      = Some (Json after) ∧
    ∀ req w'', deliver config getToken userinfo_get {| listening := false |}
                 req w'' = None.
Proof.
  intros Hcl Hcode Htok Hui Hid Hrt.
  assert (Ht : truthy (Some code) = true).
  { simpl. apply negb_true_iff. by apply String.eqb_neq. }
  unfold handleRequest. cbn [pathname query_code]. rewrite Ht.
  rewrite bool_decide_eq_true_2 by done. cbn [negb default].
  change (Datatypes.id code) with code.
  destruct (getCredentials_keyed_by_resolved_email_aux code "{}"
              (emit (Respond 200 CONFIRMATION) w).2 cl tokens after data
              Hcl Htok Hui Hid Hrt) as (w2 & Hrun & Hcf & Htr).
  cbn [emit snd] in Hrun, Htr |- *. rewrite Hrun. simpl.
  eexists. split; [reflexivity|]. simpl.
  split; [|split; [by rewrite Hcf, lookup_insert_eq|done]].
  destruct Htr as [evs Htr]. simpl in Htr.
  erewrite events_since_app
    by (simpl; rewrite Htr, <- ?app_assoc; reflexivity).
  by rewrite !app_assoc, last_snoc.
Qed.

End LifecycleFacts.

(** ** Stored records are never lost *)

Section RecordFacts.
Import Records.
Variable config : ServerConfig.
Variable getToken : string → option Credentials.
Variable userinfo_get : Credentials → Credentials * UserinfoResponse.
Variable platform : string.
Variable BROWSER : string.
Variable now : Z.

#[local] Arguments getCredentialFilename : simpl never.

Lemma keeps_ret {A} (a : A) : keeps_records (mret a).
Proof. by intros path w H. Qed.

Lemma keeps_throw {A} (e : error) : keeps_records (@throw A e).
Proof. by intros path w H. Qed.

Lemma keeps_emit e : keeps_records (emit e).
Proof. by intros path w H. Qed.

Lemma keeps_set_client cl : keeps_records (set_client cl).
Proof. by intros path w H. Qed.

Lemma keeps_deref r : keeps_records (deref r).
Proof. intros path w H. unfold deref. by destruct (oauth2Client w). Qed.

Lemma keeps_write_file p c : keeps_records (write_file p c).
Proof.
  intros path w [c0 H]. unfold has_record. simpl.
  destruct (decide (p = path)) as [->|Hne].
  - exists c. apply lookup_insert_eq.
  - exists c0. by rewrite lookup_insert_ne.
Qed.

Lemma keeps_bind {A B} (m : M A) (k : A → M B) :
  keeps_records m → (∀ a, keeps_records (k a)) → keeps_records (m ≫= k).
Proof.
  intros Hm Hk path w Hw. unfold mbind, M_bind, bind.
  specialize (Hm path w Hw). destruct (m w) as [[a|e] w1]; [|done].
  by apply Hk.
Qed.

Create HintDb keeps.
#[local] Hint Resolve keeps_ret keeps_throw keeps_emit keeps_set_client
  keeps_deref keeps_write_file : keeps.

Local Ltac keeps_step :=
  first
    [ solve [eauto with keeps]
    | apply keeps_bind; [|intros ?]
    | match goal with
      | |- keeps_records (if ?b then _ else _) => destruct b
      | |- keeps_records (match ?x with _ => _ end) => destruct x
      end ].

Local Ltac keeps_fun :=
  let path := fresh "path" in
  let w := fresh "w" in
  let H := fresh "H" in
  intros path w H;
  repeat match goal with
         | |- has_record _ (match ?x with _ => _ end).2 => destruct x
         end;
  try done;
  match goal with
  | |- has_record ?p (?m ?w).2 =>
      cut (keeps_records m); [intros Hk; by apply Hk | repeat keeps_step]
  end.

Lemma keeps_initialize : keeps_records initialize.
Proof. unfold initialize. keeps_fun. Qed.

Lemma keeps_getAccountInfo : keeps_records getAccountInfo.
Proof. unfold getAccountInfo. keeps_fun. Qed.

Lemma keeps_getStoredCredentials userId :
  keeps_records (getStoredCredentials config userId).
Proof. unfold getStoredCredentials. keeps_fun. Qed.

Lemma keeps_storeCredentials client userId :
  keeps_records (storeCredentials config client userId).
Proof. unfold storeCredentials. repeat keeps_step. Qed.

Lemma keeps_exchangeCode code : keeps_records (exchangeCode getToken code).
Proof. unfold exchangeCode. keeps_fun. Qed.

Lemma keeps_getUserInfo client : keeps_records (getUserInfo userinfo_get client).
Proof. unfold getUserInfo. repeat keeps_step. Qed.

Lemma keeps_getAuthorizationUrl emailAddress state :
  keeps_records (getAuthorizationUrl emailAddress state).
Proof. unfold getAuthorizationUrl. keeps_fun. Qed.

#[local] Hint Resolve keeps_initialize keeps_getAccountInfo
  keeps_getStoredCredentials keeps_storeCredentials keeps_exchangeCode
  keeps_getUserInfo keeps_getAuthorizationUrl : keeps.

Lemma keeps_getCredentials_try code :
  keeps_records (getCredentials_try config getToken userinfo_get code).
Proof. unfold getCredentials_try. repeat keeps_step. Qed.

Lemma keeps_getCredentials code state :
  keeps_records (getCredentials config getToken userinfo_get code state).
Proof.
  intros path w Hw. unfold getCredentials.
  pose proof (keeps_getCredentials_try code path w Hw) as H1.
  destruct (getCredentials_try _ _ _ _ w) as [[[emailAddress [client|]]|e] w1];
    simpl in H1; [done| |]; [|destruct e];
    match goal with
    | |- has_record ?p (?m ?w).2 =>
        cut (keeps_records m); [intros Hk; by apply Hk | repeat keeps_step]
    end.
Qed.

Lemma keeps_startAuthFlow userId :
  keeps_records (startAuthFlow config platform BROWSER userId).
Proof.
  unfold startAuthFlow. destruct (browser_command platform BROWSER).
  repeat keeps_step.
Qed.

#[local] Hint Resolve keeps_getCredentials keeps_startAuthFlow : keeps.

Lemma keeps_setupOAuth2 userId :
  keeps_records (setupOAuth2 config userinfo_get platform BROWSER now userId).
Proof. unfold setupOAuth2. repeat keeps_step. Qed.

Lemma keeps_handleRequest self req path w :
  has_record path w →
  has_record path (handleRequest config getToken userinfo_get self req w).2.
Proof.
  intros Hw. unfold handleRequest.
  destruct (negb (bool_decide _)); [done|].
  destruct (negb (truthy _)); [done|]. simpl.
  match goal with
  | |- context [getCredentials _ _ _ ?c ?s ?w1] =>
      pose proof (keeps_getCredentials c s path w1 Hw) as H1;
      destruct (getCredentials config getToken userinfo_get c s w1) as [[a|e] w2]
  end; done.
Qed.

(** X8: stored records are never lost.  Along any sequence of calls of
    the service and server methods, a user whose credential file holds a
    record keeps a file that holds a record: files are overwritten with
    records, never deleted or corrupted. *)
Theorem stored_records_survive w w' userId :
  rtc (step config getToken userinfo_get platform BROWSER now) w w' →
  has_record (getCredentialFilename config userId) w →
  has_record (getCredentialFilename config userId) w'.
Proof.
  induction 1 as [w|w w1 w' Hstep _ IH]; [done|].
  intros Hw. apply IH. clear IH.
  destruct Hstep; try (by apply keeps_handleRequest);
    match goal with
    | |- has_record ?p (?m w).2 =>
        cut (keeps_records m);
          [intros Hk; by apply Hk
          |solve [eauto using keeps_setupOAuth2 with keeps]]
    end.
Qed.
End RecordFacts.

(** ** [listAccounts] and [start] *)

Section StartupFacts.
Import Startup.
Variable config : ServerConfig.
Variable platform : string.
Variable BROWSER : string.

#[local] Arguments getCredentialFilename : simpl never.

(** X25: [listAccounts] lists the registry.  It always returns, with
    one entry per account of the registry, in order; it reports that no
    account is configured exactly when the registry is empty; it starts no
    flow and changes neither files nor client. *)
Theorem listAccounts_lists_registry w :
  ∃ r w',
    listAccounts w = (Ok r, w') ∧
    list_accounts r = map entry_of (registry w) ∧
    (list_message r =
       "No accounts configured. Please check your .accounts.json file."
     ↔ registry w = []) ∧
    existsb is_flow_event (events_since w w') = false ∧
    credFiles w' = credFiles w ∧ oauth2Client w' = oauth2Client w.
Proof.
  destruct (getAccountInfo_run w) as (evs & w1 & Hrun & Htr & Hevs & Hcf & Hcl & _).
  unfold listAccounts. unfold mbind at 1. unfold M_bind, bind. rewrite Hrun.
  assert (Hfl : existsb is_flow_event (events_since w w1) = false).
  { rewrite (events_since_app _ _ _ Htr). by destruct Hevs as [->|[m ->]]. }
  rewrite length_map.
  destruct (registry w) as [|a l] eqn:Hreg; cbn [length Nat.eqb].
  - eexists _, w1. split; [reflexivity|]. simpl. done.
  - eexists _, w1. split; [reflexivity|]. cbn [list_accounts list_message].
    split; [done|]. split; [|done]. split; [|done].
    intros H. exfalso. revert H. generalize (pretty (length (a :: l))).
    intros s H. discriminate H.
Qed.






End StartupFacts.

(** ** Further properties of the bulk tools *)

Section BulkMore.
Import Bulk.
Variable messages_get : string → string → settled Message.
Variable messages_modify : string → string → settled unit.

Lemma collect_attachments_acc (parts : list MessagePart)
    (acc : gmap string Attachment) (k : string) :
  fold_left
    (λ acc part,
       if truthy (body_attachmentId part) then
         <[partId part :=
             {| att_filename := filename part;
                att_mimeType := mimeType part;
                att_attachmentId := default "" (body_attachmentId part) |}]> acc
       else acc)
    parts acc !! k
  = match last (List.filter
                  (λ p, truthy (body_attachmentId p) && String.eqb (partId p) k)
                  parts) with
    | Some p => Some (Gmail.attachment_of p)
    | None => acc !! k
    end.
Proof.
  revert acc. induction parts as [|p parts IH]; intros acc; [done|].
  cbn [fold_left List.filter]. rewrite IH.
  destruct (truthy (body_attachmentId p)) eqn:Ht; cbn [andb].
  - destruct (String.eqb_spec (partId p) k) as [->|Hne].
    + destruct (List.filter _ parts) as [|q l] eqn:Hf.
      * simpl. by rewrite lookup_insert_eq.
      * rewrite last_cons_cons.
        destruct (last (q :: l)) eqn:Hl; [done|]. by apply last_None in Hl.
    + destruct (last _); [done|]. by rewrite lookup_insert_ne.
  - done.
Qed.

(** X12: the attachment map.  The entry the attachment loop leaves
    under a part id is that of the last part with this id that has an
    attachment id; a part id without such a part has no entry. *)
Theorem collect_attachments_lookup (parts : list MessagePart) (k : string) :
  collect_attachments parts !! k
  = Gmail.attachment_of <$>
      last (List.filter
              (λ p, truthy (body_attachmentId p) && String.eqb (partId p) k)
              parts).
Proof.
  unfold collect_attachments. rewrite collect_attachments_acc.
  destruct (last _); [done|]. apply lookup_empty.
Qed.

(** X13: when [bulkGetEmails] succeeds.  It is fulfilled exactly when
    the user id is non-empty, the list of ids is non-empty and every per-id
    call is fulfilled; the results are those of the per-id calls, one per
    id and in the order of the ids. *)
Theorem bulkGetEmails_fulfilled (args : BulkArgs) (rs : list EmailResult) :
  bulkGetEmails messages_get args = Fulfilled rs ↔
  ∃ userId l,
    user_id args = Some userId ∧ userId ≠ "" ∧
    ids args = Some l ∧ l ≠ [] ∧
    map (get_one messages_get userId) l = Fulfilled <$> rs.
Proof.
  unfold bulkGetEmails. destruct args as [[userId|] l]; cbn [user_id ids].
  2: { split; [done|]. by intros (? & ? & ? & _). }
  cbn [truthy]. destruct (String.eqb_spec userId "") as [->|Hu]; cbn [negb].
  { split; [done|]. by intros (? & ? & [= <-] & ? & _). }
  destruct l as [[|x l]|].
  - split; [done|]. by intros (? & ? & _ & _ & [= <-] & ? & _).
  - cbn [default]. change (Datatypes.id userId) with userId.
    rewrite Promise_all_fulfilled. split.
    + intros H. by exists userId, (x :: l).
    + by intros (? & ? & [= <-] & _ & [= <-] & _ & H).
  - split; [done|]. by intros (? & ? & _ & _ & ? & _).
Qed.

Lemma archive_all_fulfilled userId (l archived : list string) :
  map (archive_one messages_modify userId) l = Fulfilled <$> archived ↔
  archived = l ∧ ∀ id, id ∈ l → messages_modify userId id = Fulfilled tt.
Proof.
  revert archived. induction l as [|x l IH]; intros archived.
  - destruct archived; simpl; split; try done.
    + intros _. split; [done|]. by intros ? ?%elem_of_nil.
    + by intros [? _].
  - destruct archived as [|a archived]; simpl.
    { split; [done|]. by intros [? _]. }
    unfold archive_one at 1.
    destruct (messages_modify userId x) as [[]|e] eqn:Hx.
    + split.
      * intros [= <- H]. apply IH in H as [-> H]. split; [done|].
        intros id [->|Hin]%elem_of_cons; auto.
      * intros [[= -> ->] H]. f_equal. apply IH. split; [done|].
        intros id Hin. apply H. by apply list_elem_of_further.
    + split; [done|]. intros [[= -> ->] H].
      specialize (H x (list_elem_of_here _ _)). congruence.
Qed.

(** X14: when [bulkArchive] succeeds.  It is fulfilled exactly when the
    user id is non-empty, the list of ids is non-empty and every
    [messages.modify] call is fulfilled; its text then names the requested
    ids, all of them and in the order given. *)
Theorem bulkArchive_fulfilled (args : BulkArgs) (text : string) :
  bulkArchive messages_modify args = Fulfilled text ↔
  ∃ userId l,
    user_id args = Some userId ∧ userId ≠ "" ∧
    ids args = Some l ∧ l ≠ [] ∧
    (∀ id, id ∈ l → messages_modify userId id = Fulfilled tt) ∧
    text = "Messages " +:+ String.concat ", " l +:+ " archived successfully".
Proof.
  unfold bulkArchive. destruct args as [[userId|] l]; cbn [user_id ids].
  2: { split; [done|]. by intros (? & ? & ? & _). }
  cbn [truthy]. destruct (String.eqb_spec userId "") as [->|Hu]; cbn [negb].
  { split; [done|]. by intros (? & ? & [= <-] & ? & _). }
  destruct l as [[|x l]|].
  - split; [done|]. by intros (? & ? & _ & _ & [= <-] & ? & _).
  - cbn [default]. change (Datatypes.id userId) with userId.
    destruct (Promise_all _) as [archived|e] eqn:Hall.
    + apply Promise_all_fulfilled, archive_all_fulfilled in Hall as [-> Hall].
      split.
      * intros [= <-]. by exists userId, (x :: l).
      * by intros (? & ? & [= <-] & _ & [= <-] & _ & _ & ->).
    + split; [done|].
      intros (? & ? & [= <-] & _ & [= <-] & _ & H & _).
      assert (Promise_all (map (archive_one messages_modify userId) (x :: l))
              = Fulfilled (x :: l)) as Hok.
      { apply Promise_all_fulfilled, archive_all_fulfilled. done. }
      congruence.
  - split; [done|]. by intros (? & ? & _ & _ & ? & _).
Qed.
End BulkMore.

(** ** The single-message tools and the drafts *)

Section GmailFacts.
Import Bulk Gmail.
Variable messages_get : string → string → settled Message.
Variable messages_modify : string → string → settled unit.
Variable SentData DraftData : Type.
Variable original_get : string → string → settled Original.
Variable messages_send : string → string → option string → settled SentData.
Variable drafts_create : string → string → option string → settled DraftData.
Variable toLowerCase : string → string.

Lemma truthy_nonempty (s : string) : s ≠ "" → truthy (Some s) = true.
Proof. intros H. simpl. apply negb_true_iff. by apply String.eqb_neq. Qed.

(** X15: the bulk read is the single read, repeated.  For a non-empty
    list of non-empty ids, [bulkGetEmails] gives what [Promise.all] gives on
    the [getEmailById] calls for these ids.  (An empty id is where they
    differ: [getEmailById] rejects it without calling the API.) *)
Theorem bulkGetEmails_is_all_of_getEmailById (userId : string) (l : list string) :
  userId ≠ "" →
  l ≠ [] →
  Forall (λ id, id ≠ "") l →
  bulkGetEmails messages_get {| Bulk.user_id := Some userId; ids := Some l |}
  = Promise_all
      (map (λ id, getEmailById messages_get
                    {| user_id := Some userId; email_id := Some id;
                       message_id := None; to := None; subject := None;
                       body := None; cc := None; original_message_id := None;
                       reply_body := None; send := None |}) l).
Proof.
  intros Hu Hl Hids. unfold bulkGetEmails. cbn [Bulk.user_id ids].
  rewrite (truthy_nonempty _ Hu). cbn [negb default].
  change (Datatypes.id userId) with userId.
  destruct l as [|x l]; [done|]. f_equal.
  apply map_ext_Forall. eapply Forall_impl; [exact Hids|].
  intros id Hid. unfold getEmailById, get_one. cbn [user_id email_id].
  rewrite (truthy_nonempty _ Hu), (truthy_nonempty _ Hid). done.
Qed.

(** X16: the bulk archive succeeds when every single one does.  For a
    non-empty list of non-empty ids, [bulkArchive] is fulfilled if and only
    if [archive] is fulfilled for each id of the list. *)
Theorem bulkArchive_iff_every_archive (userId : string) (l : list string) :
  userId ≠ "" →
  l ≠ [] →
  Forall (λ id, id ≠ "") l →
  (∃ text, bulkArchive messages_modify
             {| Bulk.user_id := Some userId; ids := Some l |} = Fulfilled text) ↔
  ∀ id, id ∈ l →
    archive messages_modify
      {| user_id := Some userId; email_id := None; message_id := Some id;
         to := None; subject := None; body := None; cc := None;
         original_message_id := None; reply_body := None; send := None |}
    = Fulfilled ("Message " +:+ id +:+ " archived successfully").
Proof.
  intros Hu Hl Hids.
  assert (Hone : ∀ id, id ∈ l →
    (archive messages_modify
       {| user_id := Some userId; email_id := None; message_id := Some id;
          to := None; subject := None; body := None; cc := None;
          original_message_id := None; reply_body := None; send := None |}
     = Fulfilled ("Message " +:+ id +:+ " archived successfully")
     ↔ messages_modify userId id = Fulfilled tt)).
  { intros id Hin. rewrite Forall_forall in Hids.
    unfold archive. cbn [user_id message_id].
    rewrite (truthy_nonempty _ Hu), (truthy_nonempty _ (Hids id Hin)).
    cbn [negb default]. change (Datatypes.id ?x) with x.
    destruct (messages_modify userId id) as [[]|e]; by split. }
  unfold bulkArchive. cbn [Bulk.user_id ids].
  rewrite (truthy_nonempty _ Hu). cbn [negb default].
  change (Datatypes.id userId) with userId.
  destruct l as [|x l]; [done|].
  destruct (Promise_all _) as [archived|e] eqn:Hall.
  - apply Promise_all_fulfilled, archive_all_fulfilled in Hall as [_ Hall].
    split; [|by eexists].
    intros _ id Hin. apply Hone; auto.
  - split; [by intros [? ?]|]. intros H.
    assert (Promise_all (map (archive_one messages_modify userId) (x :: l))
            = Fulfilled (x :: l)) as Hok.
    { apply Promise_all_fulfilled, archive_all_fulfilled. split; [done|].
      intros id Hin. apply Hone; auto. }
    congruence.
Qed.

Lemma decode_to_base64url (text : string) :
  Base64.decodeBase64Data (to_base64url text) = list_byte_of_string text.
Proof.
  unfold to_base64url, Base64.decodeBase64Data, Base64.base64url.
  rewrite decode_sextets;
    auto using sextets_of_bytes_bound, sextets_padding, group_sextets_of_bytes.
Qed.

(** X17: the draft that is created.  With all required arguments,
    [createDraft] makes one [drafts.create] call and returns its answer;
    the [raw] field it sends decodes, under [decodeBase64Data], to the bytes
    of the message text built from [to], [subject], [cc] and [body]. *)
Theorem createDraft_raw_decodes (args : Args) (userId t s b : string) :
  user_id args = Some userId → userId ≠ "" →
  to args = Some t → t ≠ "" →
  subject args = Some s → s ≠ "" →
  body args = Some b → b ≠ "" →
  ∃ raw,
    createDraft DraftData drafts_create args
      = ([DraftsCreate userId raw None], drafts_create userId raw None) ∧
    Base64.decodeBase64Data raw
      = list_byte_of_string (draft_text t s (default [] (cc args)) b).
Proof.
  intros Hu Hu' Ht Ht' Hs Hs' Hb Hb'.
  unfold createDraft. rewrite Hu, Ht, Hs, Hb.
  rewrite !truthy_nonempty by done. cbn [negb default].
  change (Datatypes.id ?x) with x.
  eexists. split; [reflexivity|]. apply decode_to_base64url.
Qed.

(** X18: [reply] sends only when told to.  Unless [send] is true,
    [reply] makes no [messages.send] call and its result is never that of a
    send; when [send] is true it creates no draft. *)
Theorem reply_send_gate (args : Args) :
  let calls := (reply SentData DraftData original_get messages_send
                  drafts_create toLowerCase args).1 in
  let result := (reply SentData DraftData original_get messages_send
                   drafts_create toLowerCase args).2 in
  (if default false (send args)
   then existsb is_draft calls = false
   else existsb is_send calls = false) ∧
  match result with
  | Fulfilled (Sent _) => send args = Some true
  | Fulfilled (Drafted _) => send args ≠ Some true
  | Rejected _ => True
  end.
Proof.
  unfold reply.
  destruct (truthy (user_id args)); cbn [negb].
  2: { simpl. by destruct (default false (send args)). }
  destruct (truthy (original_message_id args)); cbn [negb].
  2: { simpl. by destruct (default false (send args)). }
  destruct (truthy (reply_body args)); cbn [negb].
  2: { simpl. by destruct (default false (send args)). }
  destruct (original_get _ _) as [orig|e].
  2: { simpl. by destruct (default false (send args)). }
  destruct (headers orig) as [hs|].
  2: { simpl. by destruct (default false (send args)). }
  destruct (send args) as [[]|] eqn:Hsend; simpl.
  - destruct (messages_send _ _ _); done.
  - destruct (drafts_create _ _ _); done.
  - destruct (drafts_create _ _ _); done.
Qed.

(** X19: the message of a reply.  With valid arguments and an original
    message that has headers, [reply] reads the original and then makes one
    call, a send or a draft creation, in the thread of the original; the
    [raw] field decodes to the reply text, addressed to the [from] header
    of the original with its [subject] after [Re: ]. *)
Theorem reply_raw_decodes (args : Args) (userId id b : string)
    (orig : Original) (hs : list Header) :
  user_id args = Some userId → userId ≠ "" →
  original_message_id args = Some id → id ≠ "" →
  reply_body args = Some b → b ≠ "" →
  original_get userId id = Fulfilled orig →
  headers orig = Some hs →
  ∃ raw,
    (reply SentData DraftData original_get messages_send drafts_create
       toLowerCase args).1
      = [ MessagesGet userId id;
          if default false (send args)
          then MessagesSend userId raw (threadId orig)
          else DraftsCreate userId raw (threadId orig) ] ∧
    Base64.decodeBase64Data raw
      = list_byte_of_string
          (reply_text id (header_map toLowerCase hs)
             (default [] (cc args)) b).
Proof.
  intros Hu Hu' Hi Hi' Hb Hb' Hget Hhs.
  unfold reply. rewrite Hu, Hi, Hb.
  rewrite !truthy_nonempty by done. cbn [negb default].
  change (Datatypes.id ?x) with x. rewrite Hget, Hhs.
  eexists. split; [|apply decode_to_base64url].
  by destruct (from_option Datatypes.id false (send args)).
Qed.
End GmailFacts.

(** ** The Drive and Calendar tools *)

Section DriveFacts.
Import Bulk Drive.
Variable files_get_metadata : string → settled (option string).
Variable files_get_media : string → settled (list byte).

Lemma std_char_ok_all (v : N) : (v < 64)%N → std_char_ok v = true.
Proof.
  intros Hv.
  assert (Hall : forallb std_char_ok (map N.of_nat (seq 0 64)) = true)
    by (vm_compute; reflexivity).
  rewrite forallb_forall in Hall. apply Hall.
  apply in_map_iff. exists (N.to_nat v). split; [lia|].
  apply in_seq. lia.
Qed.

Lemma sextets_standard (q : list N) (p : string) :
  Forall (λ v, (v < 64)%N) q → Base64.sextets p = [] →
  Base64.sextets
    (String.append
       (Base64.replace_all "_" "/"
          (Base64.replace_all "-" "+" (string_of_sextets_std q))) p) = q.
Proof.
  intros Hq Hp. induction Hq as [|v q Hv _ IH]; simpl; [done|].
  pose proof (std_char_ok_all v Hv) as Hok.
  unfold std_char_ok, Base64.std_char in Hok.
  apply andb_true_iff in Hok as [Hne Hdec].
  apply negb_true_iff in Hne. rewrite Hne.
  destruct (Base64.unbase64 _) as [w|]; [|done].
  apply N.eqb_eq in Hdec. subst w. by rewrite IH.
Qed.

Lemma decode_to_base64 (b : list byte) :
  Base64.decodeBase64Data (to_base64 b) = b.
Proof.
  unfold Base64.decodeBase64Data, to_base64, Base64.Buffer_from_base64.
  rewrite !replace_all_app, !replace_all_padding by discriminate.
  rewrite append_assoc.
  rewrite sextets_standard;
    auto using sextets_of_bytes_bound, sextets_padding_app,
      group_sextets_of_bytes.
Qed.

Lemma or_string_nonempty (a : option string) (b : string) :
  b ≠ "" → or_string a b ≠ "".
Proof.
  intros Hb. unfold or_string. destruct a as [s|]; simpl; [|done].
  destruct (String.eqb_spec s ""); simpl; done.
Qed.

(** X20: the downloaded resource.  With valid arguments and both Drive
    calls fulfilled, [downloadFile] returns the resource [urn:drive:<id>]
    whose [blob] decodes, under [decodeBase64Data], to the file content;
    its MIME type is never empty, and is the [mime_type] argument when one
    is given. *)
Theorem downloadFile_resource (args : DownloadArgs) (userId fileId : string)
    (metadata_mimeType : option string) (content : list byte) :
  user_id args = Some userId → userId ≠ "" →
  file_id args = Some fileId → fileId ≠ "" →
  files_get_metadata fileId = Fulfilled metadata_mimeType →
  files_get_media fileId = Fulfilled content →
  ∃ r,
    downloadFile files_get_metadata files_get_media args = Fulfilled r ∧
    uri r = "urn:drive:" +:+ fileId ∧
    Base64.decodeBase64Data (blob r) = content ∧
    mimeType r ≠ "" ∧
    (∀ m, mime_type args = Some m → m ≠ "" → mimeType r = m).
Proof.
  intros Hu Hu' Hf Hf' Hmeta Hmedia.
  unfold downloadFile. rewrite Hu, Hf.
  rewrite !truthy_nonempty by done. cbn [negb default].
  change (Datatypes.id ?x) with x. rewrite Hmeta, Hmedia.
  eexists. split; [reflexivity|]. cbn [uri blob mimeType].
  split; [done|]. split; [apply decode_to_base64|]. split.
  - apply or_string_nonempty, or_string_nonempty. discriminate.
  - intros m -> Hm. unfold or_string at 1. by rewrite truthy_nonempty.
Qed.

(** X21: the page size of [listFiles].  It always lies between 1 and
    100: a value in that range is used as it is, a larger one gives 100, a
    negative one gives 1, and a missing value or 0 gives 50. *)
Theorem pageSize_bounds (page_size : option Z) :
  (1 ≤ pageSize page_size ≤ 100)%Z ∧
  (∀ n, page_size = Some n → (1 ≤ n ≤ 100)%Z → pageSize page_size = n) ∧
  (∀ n, page_size = Some n → (100 < n)%Z → pageSize page_size = 100%Z) ∧
  (∀ n, page_size = Some n → (n < 0)%Z → pageSize page_size = 1%Z) ∧
  (page_size = None ∨ page_size = Some 0%Z → pageSize page_size = 50%Z).
Proof.
  unfold pageSize, or_default. repeat split.
  - destruct page_size as [n|]; [destruct (Z.eqb_spec n 0)|]; lia.
  - destruct page_size as [n|]; [destruct (Z.eqb_spec n 0)|]; lia.
  - intros n -> Hn. destruct (Z.eqb_spec n 0); lia.
  - intros n -> Hn. destruct (Z.eqb_spec n 0); lia.
  - intros n -> Hn. destruct (Z.eqb_spec n 0); lia.
  - by intros [->| ->].
Qed.
End DriveFacts.

Section CalendarFacts.
Import Bulk Calendar.
Variable EventData : Type.
Variable events_insert : InsertRequest → settled EventData.
Variable events_delete : string → string → string → settled unit.

(** X22: the event count of [getCalendarEvents].  It always lies
    between 1 and 2500: a value in that range is used as it is, a larger
    one gives 2500, a negative one gives 1, and a missing value or 0 gives
    250. *)
Theorem maxResults_bounds (max_results : option Z) :
  (1 ≤ maxResults max_results ≤ 2500)%Z ∧
  (∀ n, max_results = Some n → (1 ≤ n ≤ 2500)%Z → maxResults max_results = n) ∧
  (∀ n, max_results = Some n → (2500 < n)%Z → maxResults max_results = 2500%Z) ∧
  (∀ n, max_results = Some n → (n < 0)%Z → maxResults max_results = 1%Z) ∧
  (max_results = None ∨ max_results = Some 0%Z →
   maxResults max_results = 250%Z).
Proof.
  unfold maxResults, Drive.or_default. repeat split.
  - destruct max_results as [n|]; [destruct (Z.eqb_spec n 0)|]; lia.
  - destruct max_results as [n|]; [destruct (Z.eqb_spec n 0)|]; lia.
  - intros n -> Hn. destruct (Z.eqb_spec n 0); lia.
  - intros n -> Hn. destruct (Z.eqb_spec n 0); lia.
  - intros n -> Hn. destruct (Z.eqb_spec n 0); lia.
  - by intros [->| ->].
Qed.

Lemma forallb_filter_nil {A} (f : A → bool) (l : list A) :
  forallb f l = true ↔ List.filter (λ x, negb (f x)) l = [].
Proof.
  induction l as [|x l IH]; simpl; [done|].
  destruct (f x); simpl; [exact IH|]. split; discriminate.
Qed.

(** X23: the required keys of [createCalendarEvent].  With a user id,
    the event is inserted exactly when [summary], [start_time] and
    [end_time] are all present in the arguments; otherwise the call is
    rejected with a message that lists the absent keys, in that order. *)
Theorem createCalendarEvent_required (args : CreateArgs) :
  truthy (user_id args) = true →
  let missing :=
    List.filter (λ key, bool_decide (key ∉ present args)) required in
  createCalendarEvent EventData events_insert args
  = match missing with
    | [] =>
        events_insert
          {| calendarId := Drive.or_string (calendar_id args) "primary";
             sendUpdates := if send_notifications args then "all" else "none" |}
    | _ :: _ =>
        Rejected ("Missing required arguments: " +:+ String.concat ", " missing)
    end.
Proof.
  intros Hu. unfold createCalendarEvent. rewrite Hu. cbn [negb].
  assert (Hf : List.filter (λ key, negb (in_args args key)) required
               = List.filter (λ key, bool_decide (key ∉ present args)) required).
  { apply filter_ext. intros key. unfold in_args.
    destruct (decide (key ∈ present args)) as [Hin|Hin].
    - rewrite bool_decide_eq_true_2, bool_decide_eq_false_2 by auto. done.
    - rewrite bool_decide_eq_false_2, bool_decide_eq_true_2 by auto. done. }
  destruct (forallb (in_args args) required) eqn:Hall; cbn [negb].
  - apply forallb_filter_nil in Hall. rewrite Hf in Hall. cbn zeta.
    by rewrite Hall.
  - cbn zeta. rewrite <- Hf.
    destruct (List.filter _ required) as [|k ks] eqn:Hm; [|done].
    apply forallb_filter_nil in Hm. congruence.
Qed.

(** X24: [deleteCalendarEvent] swallows API failures.  With a user id
    and an event id it is never rejected: it reports success exactly when
    [events.delete] is fulfilled, and a failure otherwise. *)
Theorem deleteCalendarEvent_never_rejects (args : DeleteArgs) :
  truthy (del_user_id args) = true →
  truthy (event_id args) = true →
  ∃ ok message,
    deleteCalendarEvent events_delete args = Fulfilled (ok, message) ∧
    (ok = true ↔
     events_delete (Drive.or_string (del_calendar_id args) "primary")
       (default "" (event_id args))
       (if del_send_notifications args then "all" else "none")
     = Fulfilled tt).
Proof.
  intros Hu He. unfold deleteCalendarEvent. rewrite Hu, He. cbn [negb].
  destruct (events_delete _ _ _) as [[]|e]; eexists _, _;
    (split; [reflexivity|]); split; done.
Qed.
End CalendarFacts.

(** ** The further properties at concrete inputs *)

Lemma store_load_roundtrip_witness :
  ∃ w1 r2 w2 w3,
    storeCredentials Demo.config TheClient "a@example.com"
      (Demo.with_record Demo.full_tokens) = (Ok tt, w1) ∧
    getStoredCredentials Demo.config "b@example.com" w1 = (Ok r2, w2) ∧
    getStoredCredentials Demo.config "a@example.com" w2
      = (Ok (Some TheClient), w3) ∧
    credentials <$> oauth2Client w3 = Some (credentials Demo.client).
Proof.
  apply (store_load_roundtrip Demo.config "a@example.com" "b@example.com"
           (Demo.with_record Demo.full_tokens) Demo.client).
  reflexivity.
Defined.


Lemma getCredentials_failures_witness :
  credFiles (getCredentials Demo.config Demo.getToken Demo.userinfo_get
               "expired" "{}" Demo.ready).2 = credFiles Demo.ready ∧
  ∃ u,
    GenerateAuthUrl u
      ∈ events_since Demo.ready
          (getCredentials Demo.config Demo.getToken Demo.userinfo_get
             "expired" "{}" Demo.ready).2 ∧
    ((CodeExchangeError
        (Some (generateAuthUrl Demo.client "offline" SCOPES "{}" "consent" ""))
      = CodeExchangeError (Some u) ∧ Demo.getToken "expired" = None) ∨
     (CodeExchangeError
        (Some (generateAuthUrl Demo.client "offline" SCOPES "{}" "consent" ""))
      = NoRefreshTokenError (Some u) ∧ is_Some (Demo.getToken "expired"))).
Proof.
  apply (getCredentials_failures Demo.config Demo.getToken Demo.userinfo_get
           "expired" "{}" Demo.ready Demo.client
           (CodeExchangeError
              (Some (generateAuthUrl Demo.client "offline" SCOPES "{}"
                       "consent" "")))
           (getCredentials Demo.config Demo.getToken Demo.userinfo_get
              "expired" "{}" Demo.ready).2).
  - reflexivity.
  - vm_compute. reflexivity.
Defined.

Lemma getCredentials_rejected_code_witness :
  ∃ u w',
    getCredentials Demo.config Demo.getToken Demo.userinfo_get
      "expired" "{}" Demo.ready = (Throw (CodeExchangeError (Some u)), w') ∧
    url_login_hint u = "" ∧
    last (events_since Demo.ready w') = Some (GenerateAuthUrl u) ∧
    oauth2Client w' = Some Demo.client ∧ credFiles w' = credFiles Demo.ready.
Proof.
  apply (getCredentials_rejected_code Demo.config Demo.getToken
           Demo.userinfo_get "expired" "{}" Demo.ready Demo.client);
    reflexivity.
Defined.

Lemma getCredentials_no_identity_witness :
  ∃ w',
    getCredentials Demo.config Demo.getToken DemoTools.userinfo_anonymous
      "ok" "{}" Demo.ready
      = (Throw (NoRefreshTokenError
                  (Some (generateAuthUrl Demo.client "offline" SCOPES "{}"
                           "consent" ""))), w') ∧
    credentials <$> oauth2Client w' = Some Demo.full_tokens ∧
    credFiles w' = credFiles Demo.ready.
Proof.
  apply (getCredentials_no_identity Demo.config Demo.getToken
           DemoTools.userinfo_anonymous "ok" "{}" Demo.ready Demo.client
           Demo.full_tokens Demo.full_tokens (UserinfoData None)).
  - reflexivity.
  - reflexivity.
  - reflexivity.
  - intros data H. discriminate H.
Defined.


Lemma setupOAuth2_repersists_witness :
  ∃ r w',
    setupOAuth2 Demo.config Demo.userinfo_get "linux" "" 2000
      "a@example.com" (Demo.with_record Demo.full_tokens) = (r, w') ∧
    credentials <$> oauth2Client w' = Some Demo.full_tokens ∧
    r = Ok tt ∧
    credFiles w' =
      <[getCredentialFilename Demo.config "a@example.com" :=
          Json Demo.full_tokens]>
        (credFiles (Demo.with_record Demo.full_tokens)).
Proof.
  apply (setupOAuth2_repersists Demo.config Demo.userinfo_get "linux" "" 2000
           "a@example.com" (Demo.with_record Demo.full_tokens) Demo.client
           Demo.full_tokens Demo.full_tokens
           (UserinfoData (Some {| ui_id := Some "108";
                                  ui_email := "b@example.com" |}))).
  - reflexivity.
  - apply list_elem_of_here.
  - vm_compute. reflexivity.
  - intros s Hs. exact Hs.
  - reflexivity.
Defined.

Lemma stored_records_survive_witness :
  Records.has_record (getCredentialFilename Demo.config "a@example.com")
    (setupOAuth2 Demo.config Demo.userinfo_get "linux" "" 2000
       "b@example.com" (Demo.with_record Demo.full_tokens)).2.
Proof.
  apply (stored_records_survive Demo.config Demo.getToken Demo.userinfo_get
           "linux" "" 2000 (Demo.with_record Demo.full_tokens)).
  - apply rtc_once. apply step_setupOAuth2.
  - exists Demo.full_tokens. vm_compute. reflexivity.
Defined.

Lemma handleRequest_rejected_code_witness :
  ∃ u w',
    handleRequest Demo.config Demo.getToken Demo.userinfo_get
      {| listening := true |}
      {| method := "GET"; pathname := Some "/code";
         query_code := Some "expired" |} Demo.ready
      = (Throw (CodeExchangeError (Some u)), {| listening := true |}, w') ∧
    head (events_since Demo.ready w') = Some (Respond 200 CONFIRMATION) ∧
    (Close ∉ events_since Demo.ready w') ∧
    credFiles w' = credFiles Demo.ready.
Proof.
  apply (handleRequest_rejected_code Demo.config Demo.getToken
           Demo.userinfo_get {| listening := true |} "expired" Demo.ready
           Demo.client).
  - reflexivity.
  - discriminate.
  - reflexivity.
Defined.

Lemma handleRequest_good_code_witness :
  ∃ w',
    handleRequest Demo.config Demo.getToken Demo.userinfo_get
      {| listening := true |}
      {| method := "GET"; pathname := Some "/code"; query_code := Some "ok" |}
      Demo.ready
      = (Ok tt, {| listening := false |}, w') ∧
    last (events_since Demo.ready w') = Some Close ∧
    credFiles w' !! getCredentialFilename Demo.config "b@example.com"
      = Some (Json Demo.full_tokens) ∧
    ∀ req w'', deliver Demo.config Demo.getToken Demo.userinfo_get
                 {| listening := false |} req w'' = None.
Proof.
  apply (handleRequest_good_code Demo.config Demo.getToken Demo.userinfo_get
           {| listening := true |} "ok" Demo.ready Demo.client
           Demo.full_tokens Demo.full_tokens
           {| ui_id := Some "108"; ui_email := "b@example.com" |}).
  - reflexivity.
  - discriminate.
  - reflexivity.
  - reflexivity.
  - reflexivity.
  - reflexivity.
Defined.


Lemma bulkGetEmails_is_all_of_getEmailById_witness :
  Bulk.bulkGetEmails Demo.messages_get
    {| Bulk.user_id := Some "a@example.com"; Bulk.ids := Some ["m1"; "m3"] |}
  = Bulk.Promise_all
      (map (λ id, Gmail.getEmailById Demo.messages_get
                    {| Gmail.user_id := Some "a@example.com";
                       Gmail.email_id := Some id;
                       Gmail.message_id := None; Gmail.to := None;
                       Gmail.subject := None; Gmail.body := None;
                       Gmail.cc := None; Gmail.original_message_id := None;
                       Gmail.reply_body := None; Gmail.send := None |})
         ["m1"; "m3"]).
Proof.
  apply (bulkGetEmails_is_all_of_getEmailById Demo.messages_get
           "a@example.com" ["m1"; "m3"]).
  - discriminate.
  - discriminate.
  - repeat constructor; discriminate.
Defined.

Lemma bulkArchive_iff_every_archive_witness :
  (∃ text, Bulk.bulkArchive Demo.messages_modify
             {| Bulk.user_id := Some "a@example.com";
                Bulk.ids := Some ["m1"; "m3"] |} = Bulk.Fulfilled text) ↔
  ∀ id, id ∈ ["m1"; "m3"] →
    Gmail.archive Demo.messages_modify
      {| Gmail.user_id := Some "a@example.com"; Gmail.email_id := None;
         Gmail.message_id := Some id; Gmail.to := None;
         Gmail.subject := None; Gmail.body := None; Gmail.cc := None;
         Gmail.original_message_id := None; Gmail.reply_body := None;
         Gmail.send := None |}
    = Bulk.Fulfilled ("Message " +:+ id +:+ " archived successfully").
Proof.
  apply (bulkArchive_iff_every_archive Demo.messages_modify
           "a@example.com" ["m1"; "m3"]).
  - discriminate.
  - discriminate.
  - repeat constructor; discriminate.
Defined.

Lemma createDraft_raw_decodes_witness :
  ∃ raw,
    Gmail.createDraft string DemoTools.drafts_create DemoTools.draft_args
      = ([Gmail.DraftsCreate "a@example.com" raw None],
         DemoTools.drafts_create "a@example.com" raw None) ∧
    Base64.decodeBase64Data raw
      = list_byte_of_string
          (Gmail.draft_text "c@example.com" "Hello"
             (default [] (Gmail.cc DemoTools.draft_args)) "See you at ten.").
Proof.
  apply (createDraft_raw_decodes string DemoTools.drafts_create
           DemoTools.draft_args "a@example.com" "c@example.com" "Hello"
           "See you at ten.");
    first [reflexivity | discriminate].
Defined.

Lemma reply_raw_decodes_witness :
  ∃ raw,
    (Gmail.reply string string DemoTools.original_get DemoTools.messages_send
       DemoTools.drafts_create (λ s, s) DemoTools.reply_args).1
      = [ Gmail.MessagesGet "a@example.com" "m1";
          if default false (Gmail.send DemoTools.reply_args)
          then Gmail.MessagesSend "a@example.com" raw (Some "t1")
          else Gmail.DraftsCreate "a@example.com" raw (Some "t1") ] ∧
    Base64.decodeBase64Data raw
      = list_byte_of_string
          (Gmail.reply_text "m1"
             (Gmail.header_map (λ s, s) DemoTools.original_headers)
             (default [] (Gmail.cc DemoTools.reply_args)) "Thanks.").
Proof.
  apply (reply_raw_decodes string string DemoTools.original_get
           DemoTools.messages_send DemoTools.drafts_create (λ s, s)
           DemoTools.reply_args "a@example.com" "m1" "Thanks."
           {| Gmail.threadId := Some "t1";
              Gmail.headers := Some DemoTools.original_headers |}
           DemoTools.original_headers);
    first [reflexivity | discriminate].
Defined.

Lemma downloadFile_resource_witness :
  ∃ r,
    Drive.downloadFile DemoTools.files_get_metadata DemoTools.files_get_media
      DemoTools.download_args = Bulk.Fulfilled r ∧
    Drive.uri r = "urn:drive:" +:+ "f1" ∧
    Base64.decodeBase64Data (Drive.blob r) = [x25; x50; x44; x46]%byte ∧
    Drive.mimeType r ≠ "" ∧
    (∀ m, Drive.mime_type DemoTools.download_args = Some m → m ≠ "" →
          Drive.mimeType r = m).
Proof.
  apply (downloadFile_resource DemoTools.files_get_metadata
           DemoTools.files_get_media DemoTools.download_args
           "a@example.com" "f1" (Some "application/pdf")
           [x25; x50; x44; x46]%byte);
    first [reflexivity | discriminate].
Defined.

Lemma createCalendarEvent_required_witness :
  let missing :=
    List.filter
      (λ key, bool_decide (key ∉ Calendar.present DemoTools.create_args))
      Calendar.required in
  Calendar.createCalendarEvent string DemoTools.events_insert
    DemoTools.create_args
  = match missing with
    | [] =>
        DemoTools.events_insert
          {| Calendar.calendarId :=
               Drive.or_string (Calendar.calendar_id DemoTools.create_args)
                 "primary";
             Calendar.sendUpdates :=
               if Calendar.send_notifications DemoTools.create_args
               then "all" else "none" |}
    | _ :: _ =>
        Bulk.Rejected
          ("Missing required arguments: " +:+ String.concat ", " missing)
    end.
Proof.
  apply (createCalendarEvent_required string DemoTools.events_insert
           DemoTools.create_args).
  reflexivity.
Defined.

Lemma deleteCalendarEvent_never_rejects_witness :
  ∃ ok message,
    Calendar.deleteCalendarEvent DemoTools.events_delete DemoTools.delete_args
      = Bulk.Fulfilled (ok, message) ∧
    (ok = true ↔
     DemoTools.events_delete
       (Drive.or_string (Calendar.del_calendar_id DemoTools.delete_args)
          "primary")
       (default "" (Calendar.event_id DemoTools.delete_args))
       (if Calendar.del_send_notifications DemoTools.delete_args
        then "all" else "none")
     = Bulk.Fulfilled tt).
Proof.
  apply (deleteCalendarEvent_never_rejects DemoTools.events_delete
           DemoTools.delete_args);
    reflexivity.
Defined.

Example missing_end_time :
  Calendar.createCalendarEvent string DemoTools.events_insert
    DemoTools.create_args
  = Bulk.Rejected "Missing required arguments: end_time".
Proof. vm_compute. reflexivity. Qed.

Example start_launches_for_every_account :
  omap Startup.login_hint_of
    (trace (Startup.start Demo.config "linux" "" Demo.fresh).2)
  = ["a@example.com"; "b@example.com"].
Proof. vm_compute. reflexivity. Qed.
